(** * Image-asset reconciliation of the seller/customer platform backend

    A shallow embedding of [utils/imagekitUpload.js] (identifier resolution,
    deletion, URL classification), of [controllers/logoController.js] (the
    in-memory logo singleton) and of the photo reconciliation step of the
    product-update flow, together with the properties the specification
    states about them.

    JavaScript strings are modelled as [string]; a property that may be
    absent ([undefined]) as [option string]; code that awaits the remote
    asset host and may throw as a state-and-exception monad over an
    explicit program state. *)

From Stdlib Require Import String Ascii List Bool Arith Lia.
Import ListNotations.
Local Open Scope string_scope.

(** ** JavaScript string primitives *)

Module Js.

(** [a.startsWith(p)] *)
Fixpoint startsWith (s p : string) {struct p} : bool :=
  match p with
  | EmptyString => true
  | String c p' =>
      match s with
      | EmptyString => false
      | String d s' => Ascii.eqb c d && startsWith s' p'
      end
  end.

(** [s.includes(n)] *)
Fixpoint includes (s n : string) : bool :=
  startsWith s n ||
  match s with
  | EmptyString => false
  | String _ s' => includes s' n
  end.

(** [s.endsWith(p)] *)
Fixpoint endsWith (s p : string) : bool :=
  String.eqb s p ||
  match s with
  | EmptyString => false
  | String _ s' => endsWith s' p
  end.

(** [s.split(sep)] for a one-character separator: the result is never
    empty; [cur] holds the segment being read. *)
Fixpoint split_aux (sep : ascii) (s : string) (cur : string) : list string :=
  match s with
  | EmptyString => [cur]
  | String c s' =>
      if Ascii.eqb c sep
      then cur :: split_aux sep s' EmptyString
      else split_aux sep s' (cur ++ String c EmptyString)
  end.

Definition split (sep : ascii) (s : string) : list string :=
  split_aux sep s EmptyString.

Definition split_slash : string -> list string := split "/"%char.

(** [parts.join('/')] *)
Fixpoint join_slash (parts : list string) : string :=
  match parts with
  | [] => EmptyString
  | [p] => p
  | p :: rest => p ++ "/" ++ join_slash rest
  end.

(** Truthiness of a string: only the empty string is falsy. *)
Definition truthy_str (s : string) : bool :=
  match s with EmptyString => false | _ => true end.

(** Truthiness of a possibly absent string. *)
Definition truthy (v : option string) : bool :=
  match v with Some s => truthy_str s | None => false end.

(** [a || b] on possibly absent strings. *)
Definition or (a b : option string) : option string :=
  if truthy a then a else b.

(** [a || d] when [d] is a string: the result is a string. *)
Definition or_str (a : option string) (d : string) : string :=
  match a with
  | Some s => if truthy_str s then s else d
  | None => d
  end.

(** [v === s] for a string [s]. *)
Definition eq_str (v : option string) (s : string) : bool :=
  match v with Some t => String.eqb t s | None => false end.

(** [v === w] for two possibly absent strings. *)
Definition eq_opt (v w : option string) : bool :=
  match v, w with
  | Some a, Some b => String.eqb a b
  | None, None => true
  | _, _ => false
  end.

(** Truthiness of a possibly absent object. *)
Definition present {A} (v : option A) : bool :=
  match v with Some _ => true | None => false end.

(** [parts.filter(p => p)] *)
Definition nonempty (parts : list string) : list string :=
  filter truthy_str parts.

(** [parts.pop()] on a non-mutated copy: the last element, if any. *)
Definition last_opt (parts : list string) : option string :=
  match rev parts with [] => None | p :: _ => Some p end.

(** [parts.slice(0, -1)] *)
Definition init (parts : list string) : list string := removelast parts.

(** String conversion of an argument, as [endsWith] and [includes] apply
    it: an absent value reads ["undefined"]. *)
Definition to_string (v : option string) : string :=
  match v with Some s => s | None => "undefined" end.

End Js.

(** ** URL classification *)

(** [isImageKitUrl]; [endpoint] is [process.env.IMAGEKIT_URL_ENDPOINT] and
    [url] the argument, absent when it is [null] or [undefined]. *)
Definition isImageKitUrl (endpoint : option string) (url : option string) : bool :=
  match url with
  | None => false
  | Some u =>
      if negb (Js.truthy_str u) then false
      else
        match endpoint with
        | None => false
        | Some e =>
            if negb (Js.truthy_str e) then false
            else Js.includes u e || Js.startsWith u "https://ik.imagekit.io/"
        end
  end.

(** ** Program state, exceptions and the remote asset host *)

(** A thrown JavaScript [Error]. *)
Record Error := mkError { message : string }.

Inductive Outcome (A : Type) : Type :=
| Ret (a : A)
| Throw (e : Error).
Arguments Ret {A} a.
Arguments Throw {A} e.

(** Whether a call returned rather than threw. *)
Definition returned {A} (o : Outcome A) : bool :=
  match o with Ret _ => true | Throw _ => false end.

(** An asset record of a listing; every property may be absent. *)
Record FileRecord := mkFile {
  rec_filePath : option string;
  rec_path : option string;
  rec_file : option string;
  rec_url : option string;
  rec_webkitRelativePath : option string;
  rec_name : option string;
  rec_fileName : option string;
  rec_fileId : option string
}.

(** What [imagekit.listFiles] resolves to: an array, or an object that may
    carry the array under [results], [data] or [files] and that may itself
    be a single asset record ([self]), or anything else. *)
Inductive ListResponse :=
| RespArray (files : list FileRecord)
| RespObject (results data files : option (list FileRecord)) (self : FileRecord)
| RespOther.

Definition Buffer := string.

(** The parameters [uploadImageToImageKit] hands to [imagekit.upload]. *)
Record UploadParams := mkUploadParams {
  up_file : Buffer;
  up_fileName : string;
  up_folder : string;
  up_tags : list string
}.

(** The fields of an upload response the program reads. *)
Record UploadResult := mkUploadResult {
  res_url : option string;
  res_fileId : option string;
  res_filePath : option string;
  res_name : option string;
  res_size : option nat;
  res_width : option nat;
  res_height : option nat;
  res_fileType : option string
}.

(** The remote asset client (the ImageKit SDK object): a capability
    interface over an opaque remote [World].  Every call may throw. *)
Class ImageKit := {
  World : Type;
  listFiles : option string -> World -> Outcome ListResponse * World;
  deleteFile : string -> World -> Outcome unit * World;
  upload : UploadParams -> World -> Outcome UploadResult * World
}.

(** What the program takes from its runtime: the configured endpoint, the
    URL parser ([None] when [new URL(s)] throws, else its [pathname]), and
    the regular-expression, base64 and file-system primitives of the logo
    upload. *)
Class Runtime := {
  IMAGEKIT_URL_ENDPOINT : option string;
  URL_pathname : string -> option string;
  dataUrlType : string -> option string;
  stripDataUrlPrefix : string -> string;
  Buffer_from_base64 : string -> Buffer;
  readFileSync : string -> option Buffer
}.

(** Observable steps: the "Attempting to delete" line of
    [deleteImageFromImageKit], and the calls made on the SDK.  A
    [DeleteFile] also records the argument of the enclosing
    [deleteImageFromImageKit] call, as its own log line does, and whether
    the call returned ([true]) or threw ([false]). *)
Inductive Event :=
| Attempt (fileIdOrUrl : string)
| ListFiles (path : option string)
| DeleteFile (fileId original : string) (ok : bool)
| Upload (params : UploadParams).

Section Program.
Context `{IK : ImageKit} `{RT : Runtime}.

(** The remote world, the log of observable steps and the two module
    variables of the logo controller. *)
Record State := mkState {
  world : World;
  trace : list Event;
  currentLogoUrl : option string;
  currentLogoFileId : option string
}.

(** Effects survive a throw, as in JavaScript. *)
Definition M (A : Type) : Type := State -> Outcome A * State.

Definition ret {A} (a : A) : M A := fun st => (Ret a, st).

Definition throw {A} (e : Error) : M A := fun st => (Throw e, st).

Definition bind {A B} (m : M A) (k : A -> M B) : M B :=
  fun st =>
    match m st with
    | (Ret a, st') => k a st'
    | (Throw e, st') => (Throw e, st')
    end.

(** [try { m } catch (e) { h e }] *)
Definition try_catch {A} (m : M A) (h : Error -> M A) : M A :=
  fun st =>
    match m st with
    | (Ret a, st') => (Ret a, st')
    | (Throw e, st') => h e st'
    end.

Definition log (ev : Event) : State -> State :=
  fun st => mkState (world st) (trace st ++ [ev])
                    (currentLogoUrl st) (currentLogoFileId st).

Definition with_world (w : World) : State -> State :=
  fun st => mkState w (trace st) (currentLogoUrl st) (currentLogoFileId st).

Definition emit (ev : Event) : M unit := fun st => (Ret tt, log ev st).

(** Reading the module variables. *)
Definition get : M State := fun st => (Ret st, st).

(** [currentLogoUrl = url; currentLogoFileId = fileId;] *)
Definition setLogo (url fileId : option string) : M unit :=
  fun st => (Ret tt, mkState (world st) (trace st) url fileId).

(** [await imagekit.listFiles({ path, limit: 1000 })] *)
Definition call_listFiles (path : option string) : M ListResponse :=
  fun st =>
    let (o, w) := listFiles path (world st) in
    (o, with_world w (log (ListFiles path) st)).

(** [await imagekit.deleteFile(fileId)] *)
Definition call_deleteFile (fileId original : string) : M unit :=
  fun st =>
    let (o, w) := deleteFile fileId (world st) in
    (o, with_world w (log (DeleteFile fileId original (returned o)) st)).

(** [await imagekit.upload(uploadParams)] *)
Definition call_upload (params : UploadParams) : M UploadResult :=
  fun st =>
    let (o, w) := upload params (world st) in
    (o, with_world w (log (Upload params) st)).

End Program.

Declare Scope js_scope.
Delimit Scope js_scope with js.
Notation "x <- m ;; k" := (bind m (fun x => k))
  (at level 61, m at next level, right associativity) : js_scope.
Notation "m ;;; k" := (bind m (fun _ => k))
  (at level 61, right associativity) : js_scope.

Local Open Scope js_scope.

(** ** utils/imagekitUpload.js *)

Section ImageKitUpload.
Context `{IK : ImageKit} `{RT : Runtime}.

(** [extractImageKitFilePath] *)
Definition extractImageKitFilePath (imageUrl : option string) : option string :=
  match imageUrl with
  | None => None
  | Some u =>
      if negb (Js.truthy_str u) then None
      else
        match URL_pathname u with
        | Some pathname =>
            let pathParts := Js.nonempty (Js.split_slash pathname) in
            if (0 <? List.length pathParts)%nat
            then Some ("/" ++ Js.join_slash pathParts)
            else None
        | None =>
            if Js.startsWith u "/" then Some u else None
        end
  end.

(** The array a list response is read as (both methods use the same
    normalisation). *)
Definition listedFiles (r : ListResponse) : list FileRecord :=
  match r with
  | RespArray fs => fs
  | RespObject results data files self =>
      let fs :=
        match results with
        | Some l => l
        | None =>
            match data with
            | Some l => l
            | None => match files with Some l => l | None => [] end
            end
        end in
      if Js.truthy (rec_fileId self) && (List.length fs =? 0)%nat then [self] else fs
  | RespOther => []
  end.

(** [urlToCheck.split('/').pop()] *)
Definition lastSegment (s : string) : string :=
  Js.to_string (Js.last_opt (Js.split_slash s)).

(** The three tests of method 1, in the order the code tries them. *)
Definition pathTest (filePath : string) (file : FileRecord) : bool :=
  let filePathToCheck :=
    Js.or (Js.or (rec_filePath file) (rec_path file)) (rec_file file) in
  Js.eq_str filePathToCheck filePath.

Definition urlTest (imageUrl : string) (file : FileRecord) : bool :=
  let urlToCheck := Js.or (rec_url file) (rec_webkitRelativePath file) in
  Js.eq_str urlToCheck imageUrl ||
  (Js.truthy urlToCheck &&
   Js.includes imageUrl (lastSegment (Js.to_string urlToCheck))).

Definition nameTest (fileName : option string) (file : FileRecord) : bool :=
  let nameToCheck := Js.or (rec_name file) (rec_fileName file) in
  let pathToCheck := Js.or (rec_filePath file) (rec_path file) in
  Js.eq_opt nameToCheck fileName ||
  (Js.truthy pathToCheck &&
   Js.endsWith (Js.to_string pathToCheck) (Js.to_string fileName)).

(** The single filter of method 2. *)
Definition anyTest (imageUrl filePath : string) (fileName : option string)
    (file : FileRecord) : bool :=
  let filePathToCheck :=
    Js.or (Js.or (Js.or (rec_filePath file) (rec_path file)) (rec_file file))
          (Some "") in
  let urlToCheck := Js.or (rec_url file) (Some "") in
  let nameToCheck := Js.or (Js.or (rec_name file) (rec_fileName file)) (Some "") in
  Js.eq_str filePathToCheck filePath ||
  Js.eq_str urlToCheck imageUrl ||
  Js.eq_opt nameToCheck fileName ||
  (Js.truthy filePathToCheck &&
   Js.endsWith (Js.to_string filePathToCheck) (Js.to_string fileName)) ||
  (Js.truthy urlToCheck &&
   Js.includes imageUrl (lastSegment (Js.to_string urlToCheck))).

(** [match = files.find(test); if (match && match.fileId) return match.fileId]:
    the identifier returned at this step, if the step returns. *)
Definition findWithId (test : FileRecord -> bool) (files : list FileRecord)
  : option string :=
  match find test files with
  | Some m => if Js.truthy (rec_fileId m) then rec_fileId m else None
  | None => None
  end.

(** The matching of method 1 on the files of the folder. *)
Definition matchInFolder (imageUrl filePath : string) (fileName : option string)
    (files : list FileRecord) : option string :=
  if (0 <? List.length files)%nat then
    match findWithId (pathTest filePath) files with
    | Some id => Some id
    | None =>
        match findWithId (urlTest imageUrl) files with
        | Some id => Some id
        | None => findWithId (nameTest fileName) files
        end
    end
  else None.

(** The matching of method 2 on all files. *)
Definition matchInAll (imageUrl filePath : string) (fileName : option string)
    (allFiles : list FileRecord) : option string :=
  match filter (anyTest imageUrl filePath fileName) allFiles with
  | m :: _ => if Js.truthy (rec_fileId m) then rec_fileId m else None
  | [] => None
  end.

(** The leaf name and the folder of an extracted path. *)
Definition fileNameOf (filePath : string) : option string :=
  Js.last_opt (Js.nonempty (Js.split_slash filePath)).

Definition folderPathOf (filePath : string) : string :=
  let pathParts := Js.nonempty (Js.split_slash filePath) in
  if (1 <? List.length pathParts)%nat
  then "/" ++ Js.join_slash (Js.init pathParts)
  else "/".

(** Method 1 with its own [try]/[catch]: [Some id] when it returns [id],
    [None] when control falls through to method 2. *)
Definition method1 (imageUrl filePath : string) : M (option string) :=
  try_catch
    (listResponse <- call_listFiles (Some (folderPathOf filePath)) ;;
     ret (matchInFolder imageUrl filePath (fileNameOf filePath)
                        (listedFiles listResponse)))
    (fun pathError => ret None).

(** Method 2 with its own [try]/[catch]. *)
Definition method2 (imageUrl filePath : string) : M (option string) :=
  try_catch
    (allResponse <- call_listFiles None ;;
     ret (matchInAll imageUrl filePath (fileNameOf filePath)
                     (listedFiles allResponse)))
    (fun allError => ret None).

(** [getImageKitFileId]: [Ret None] is the JavaScript [null]. *)
Definition getImageKitFileId (imageUrl : option string) : M (option string) :=
  try_catch
    (match imageUrl with
     | None => ret None
     | Some u =>
         if negb (Js.truthy_str u) then ret None
         else
           match extractImageKitFilePath (Some u) with
           | None => ret None
           | Some filePath =>
               if negb (Js.truthy_str filePath) then ret None
               else
                 try_catch
                   (r1 <- method1 u filePath ;;
                    match r1 with
                    | Some id => ret (Some id)
                    | None =>
                        r2 <- method2 u filePath ;;
                        match r2 with
                        | Some id => ret (Some id)
                        | None => ret None
                        end
                    end)
                   (fun listError => ret None)
           end
     end)
    (fun error => ret None).

(** [deleteImageFromImageKit] *)
Definition deleteImageFromImageKit (fileIdOrUrl : option string) : M bool :=
  try_catch
    (match fileIdOrUrl with
     | None => ret false
     | Some x =>
         if negb (Js.truthy_str x) then ret false
         else
           emit (Attempt x) ;;;
           if isImageKitUrl IMAGEKIT_URL_ENDPOINT (Some x) then
             fileId <- getImageKitFileId (Some x) ;;
             match fileId with
             | None => ret false
             | Some id =>
                 if negb (Js.truthy_str id) then ret false
                 else call_deleteFile id x ;;; ret true
             end
           else call_deleteFile x x ;;; ret true
     end)
    (fun error => ret false).

End ImageKitUpload.

(** ** controllers/productController.js: photo reconciliation *)

Section Reconciler.
Context `{IK : ImageKit} `{RT : Runtime}.

(** Modelled from the spec: [controllers/productController.js]
    ([updateProduct] and its helper [deleteImageFiles]) is not among the
    sources.  The selection of the photos to delete is the excerpt of
    [updateProduct] quoted in the repository's deletion guide; a photo set
    is the list of URLs the product stores. *)
Definition imagesToDelete (existingPhotos existingPhotosToKeep : list string)
  : list string :=
  filter
    (fun existing =>
       isImageKitUrl IMAGEKIT_URL_ENDPOINT (Some existing) &&
       negb (existsb (String.eqb existing) existingPhotosToKeep))
    existingPhotos.

(** Modelled from the spec: [deleteImageFiles] is not among the sources.
    Following section 4.3, the removals are handed to
    [deleteImageFromImageKit] one at a time, in order, and the outcome of
    each is recorded; nothing is caught here. *)
Fixpoint deleteImageFiles (images : list string) : M (list (string * bool)) :=
  match images with
  | [] => ret []
  | image :: rest =>
      deleted <- deleteImageFromImageKit (Some image) ;;
      report <- deleteImageFiles rest ;;
      ret ((image, deleted) :: report)
  end.

(** Modelled from the spec: [reconcile(current, desired)] of section 4.3,
    as the product-update flow performs it. *)
Definition reconcile (current desired : list string) : M (list (string * bool)) :=
  deleteImageFiles (imagesToDelete current desired).

End Reconciler.

(** ** controllers/logoController.js *)

(** A file as the upload middleware leaves it in [req.file]. *)
Record MulterFile := mkMulterFile {
  originalname : option string;
  buffer : option Buffer;
  path : option string
}.

(** The first argument of [uploadImageToImageKit]. *)
Inductive FileInput :=
| IsBuffer (b : Buffer)
| IsFile (f : MulterFile).

(** What [uploadLogo] reads of a request. *)
Record LogoRequest := mkLogoRequest {
  logoBase64 : option string;
  fileName : option string;
  file : option MulterFile
}.

Inductive Response :=
| BadRequest
| LogoUploaded (data : UploadResult)
| UploadFailed (details : string)
| UploadCrashed (details : string)
| NoLogo
| CurrentLogo (url fileId : option string)
| RetrieveCrashed (details : string)
| NothingToDelete
| LogoDeleted (deletedUrl : option string)
| DeleteFailed (details : string)
| DeleteCrashed (details : string).

(** The HTTP status each response is sent with. *)
Definition status (r : Response) : nat :=
  match r with
  | BadRequest => 400
  | LogoUploaded _ => 200
  | UploadFailed _ => 500
  | UploadCrashed _ => 500
  | NoLogo => 404
  | CurrentLogo _ _ => 200
  | RetrieveCrashed _ => 500
  | NothingToDelete => 404
  | LogoDeleted _ => 200
  | DeleteFailed _ => 500
  | DeleteCrashed _ => 500
  end.

Inductive Request :=
| PostUpload (req : LogoRequest)
| GetLogo
| DeleteLogo.

Section LogoController.
Context `{IK : ImageKit} `{RT : Runtime}.

(** [uploadImageToImageKit] *)
Definition uploadImageToImageKit (file : FileInput) (fileName folder : string)
    (tags : list string) : M UploadResult :=
  try_catch
    (sel <-
       match file with
       | IsBuffer b => ret (b, fileName)
       | IsFile f =>
           match buffer f with
           | Some b => ret (b, Js.or_str (originalname f) fileName)
           | None =>
               match path f with
               | Some p =>
                   if Js.truthy_str p then
                     match readFileSync p with
                     | Some b => ret (b, Js.or_str (originalname f) fileName)
                     | None => throw (mkError "ENOENT")
                     end
                   else throw (mkError
                     "Invalid file format. Expected buffer or multer file object.")
               | None => throw (mkError
                   "Invalid file format. Expected buffer or multer file object.")
               end
           end
       end ;;
     result <- call_upload (mkUploadParams (fst sel) (snd sel) folder tags) ;;
     ret result)
    (fun error =>
       throw (mkError ("Failed to upload image to ImageKit: " ++ message error))).

(** The filename [uploadLogo] settles on. *)
Definition finalFileName (req : LogoRequest) : string :=
  let originalname_ :=
    match file req with Some f => originalname f | None => None end in
  if Js.truthy originalname_ && negb (Js.truthy (fileName req)) then
    "app-logo." ++
    Js.or_str (Js.last_opt (Js.split "."%char (Js.to_string originalname_))) "png"
  else if Js.truthy (logoBase64 req) && negb (Js.truthy (fileName req)) then
    match dataUrlType (Js.to_string (logoBase64 req)) with
    | Some ext => "app-logo." ++ ext
    | None => "app-logo.png"
    end
  else Js.or_str (fileName req) "app-logo".

(** The upload step of [uploadLogo]; [None] is an [uploadResult] left
    unassigned. *)
Definition performUpload (req : LogoRequest) : M (option UploadResult) :=
  let tags := ["logo"; "app-logo"; "footer-logo"] in
  if Js.truthy (logoBase64 req) then
    r <- uploadImageToImageKit
           (IsBuffer (Buffer_from_base64
                        (stripDataUrlPrefix (Js.to_string (logoBase64 req)))))
           (finalFileName req) "/app-assets" tags ;;
    ret (Some r)
  else
    match file req with
    | Some f =>
        r <- uploadImageToImageKit (IsFile f) (finalFileName req)
                                   "/app-assets" tags ;;
        ret (Some r)
    | None => ret None
    end.

(** A logo is tracked: [currentLogoFileId && currentLogoUrl]. *)
Definition tracked (st : State) : bool :=
  Js.truthy (currentLogoFileId st) && Js.truthy (currentLogoUrl st).

(** The block "Delete old logo from ImageKit if it exists" of
    [uploadLogo]. *)
Definition deleteOldLogo : M unit :=
  st <- get ;;
  if tracked st
  then try_catch
         (deleteImageFromImageKit (currentLogoFileId st) ;;; ret tt)
         (fun deleteError => ret tt)
  else ret tt.

(** [uploadLogo] *)
Definition uploadLogo (req : LogoRequest) : M Response :=
  try_catch
    (if negb (Js.present (file req)) && negb (Js.truthy (logoBase64 req))
     then ret BadRequest
     else
       try_catch
         (uploadResult <- performUpload req ;;
          deleteOldLogo ;;;
          match uploadResult with
          | None =>
              throw (mkError "Cannot read properties of undefined (reading 'url')")
          | Some r =>
              setLogo (res_url r) (res_fileId r) ;;;
              ret (LogoUploaded r)
          end)
         (fun uploadError => ret (UploadFailed (message uploadError))))
    (fun error => ret (UploadCrashed (message error))).

(** [getLogo] *)
Definition getLogo : M Response :=
  try_catch
    (st <- get ;;
     if negb (Js.truthy (currentLogoUrl st)) then ret NoLogo
     else ret (CurrentLogo (currentLogoUrl st) (currentLogoFileId st)))
    (fun error => ret (RetrieveCrashed (message error))).

(** [deleteLogo] *)
Definition deleteLogo : M Response :=
  try_catch
    (st <- get ;;
     if negb (Js.truthy (currentLogoFileId st)) ||
        negb (Js.truthy (currentLogoUrl st))
     then ret NothingToDelete
     else
       try_catch
         (deleteImageFromImageKit (currentLogoFileId st) ;;;
          st' <- get ;;
          let deletedUrl := currentLogoUrl st' in
          setLogo None None ;;;
          ret (LogoDeleted deletedUrl))
         (fun deleteError => ret (DeleteFailed (message deleteError))))
    (fun error => ret (DeleteCrashed (message error))).

(** One request handled to completion. *)
Definition handle (r : Request) : M Response :=
  match r with
  | PostUpload req => uploadLogo req
  | GetLogo => getLogo
  | DeleteLogo => deleteLogo
  end.

(** The state after a sequence of requests, each handled to completion
    before the next. *)
Definition serve (requests : list Request) (st : State) : State :=
  fold_left (fun s r => snd (handle r s)) requests st.

(** The module variables when the process starts. *)
Definition initial (w : World) : State := mkState w [] None None.

End LogoController.

(** ** A concrete host and runtime, for running the program *)

Module Sample.

(** A remote host whose answers are fixed in advance. *)
Record Remote := mkRemote {
  folderListing : Outcome ListResponse;
  globalListing : Outcome ListResponse;
  deletable : string -> bool;
  uploadable : bool
}.

Definition endpoint : string := "https://ik.example.io/acct".

Definition kit : ImageKit := {|
  World := Remote;
  listFiles := fun path w =>
    match path with
    | Some _ => (folderListing w, w)
    | None => (globalListing w, w)
    end;
  deleteFile := fun fileId w =>
    if deletable w fileId then (Ret tt, w)
    else (Throw (mkError "The requested file does not exist."), w);
  upload := fun params w =>
    if uploadable w then
      (Ret (mkUploadResult
              (Some (endpoint ++ up_folder params ++ "/" ++ up_fileName params))
              (Some ("id-" ++ up_fileName params))
              (Some (up_folder params ++ "/" ++ up_fileName params))
              (Some (up_fileName params))
              (Some (String.length (up_file params))) None None
              (Some "image")), w)
    else (Throw (mkError "upload refused"), w)
|}.

(** The part of [s] from its first ['/'] on, cut before ['?'] or ['#']. *)
Fixpoint pathFrom (s : string) (started : bool) : string :=
  match s with
  | EmptyString => EmptyString
  | String c s' =>
      if Ascii.eqb c "?"%char || Ascii.eqb c "#"%char then EmptyString
      else if started || Ascii.eqb c "/"%char
           then String c (pathFrom s' true)
           else pathFrom s' false
  end.

(** A parser for URLs of the plain shape [http(s)://host/path]; anything
    else is refused, as [new URL] refuses a relative reference. *)
Definition pathname (s : string) : option string :=
  if Js.startsWith s "https://" then
    Some (pathFrom (substring 8 (String.length s) s) false)
  else if Js.startsWith s "http://" then
    Some (pathFrom (substring 7 (String.length s) s) false)
  else None.

Definition runtime : Runtime := {|
  IMAGEKIT_URL_ENDPOINT := Some endpoint;
  URL_pathname := pathname;
  dataUrlType := fun _ => None;
  stripDataUrlPrefix := fun s => s;
  Buffer_from_base64 := fun s => s;
  readFileSync := fun _ => None
|}.

(** A record with a stored path, a URL, a name and an identifier. *)
Definition asset (filePath url name fileId : string) : FileRecord :=
  mkFile (Some filePath) None None (Some url) None (Some name) None (Some fileId).

Definition failing {A} : Outcome A := Throw (mkError "request failed").

Definition start (w : Remote) : @State kit := @initial kit w.

(** A product photo and the path, folder and name it resolves through. *)
Definition photo : string := "https://ik.example.io/acct/products/a.jpg".

(** A string that is no hosted URL: a legacy local path. *)
Definition localPhoto : string := "/uploads/products/p1.jpg".

(** A second product photo. *)
Definition photoB : string := "https://ik.example.io/acct/products/b.jpg".

(** A host that lists both photos in their folder, refuses to delete the
    first and deletes anything else. *)
Definition stocked : Remote :=
  mkRemote
    (Ret (RespArray
            [asset "/acct/products/a.jpg" photo "a.jpg" "id-a";
             asset "/acct/products/b.jpg" photoB "b.jpg" "id-b"]))
    (Ret (RespArray []))
    (fun fileId => negb (String.eqb fileId "id-a"))
    true.

(** An archived copy whose stored path merely ends with the photo's
    filename, and the photo's own record under its exact path. *)
Definition archived : FileRecord :=
  mkFile (Some "/acct/archive/a.jpg") None None None None
         (Some "copy") None (Some "id-copy").

Definition exact : FileRecord :=
  mkFile (Some "/acct/products/a.jpg") None None None None
         (Some "original") None (Some "id-a").


(** A host whose folder listing is empty and whose global listing holds
    the archived copy before the exact record. *)
Definition misfiled : Remote :=
  mkRemote (Ret (RespArray [])) (Ret (RespArray [archived; exact]))
           (fun _ => true) true.


(** A host that refuses every deletion. *)
Definition stubborn : Remote :=
  mkRemote (Ret (RespArray [])) (Ret (RespArray [])) (fun _ => false) true.

(** A state in which a logo is tracked. *)
Definition withLogo (w : Remote) : @State kit :=
  @mkState kit w []
    (Some "https://ik.example.io/acct/app-assets/app-logo.png")
    (Some "id-app-logo.png").

(** A logo upload as JSON with a base64 body. *)
Definition jsonUpload : LogoRequest :=
  mkLogoRequest (Some "iVBORw0KGgo=") None None.

(** A host on which every listing fails. *)
Definition unreachable : Remote :=
  mkRemote failing failing (fun _ => true) true.

End Sample.

(** ** The matching order as the specification words it *)

Module Priority.







End Priority.

(** ** Vocabulary of the statements *)

(** The arguments of the delete attempts in a log, in order. *)
Definition attempts (evs : list Event) : list string :=
  flat_map (fun ev => match ev with Attempt x => [x] | _ => [] end) evs.

Definition isDeleteFile (ev : Event) : bool :=
  match ev with DeleteFile _ _ _ => true | _ => false end.

(** The number of [imagekit.deleteFile] calls in a log. *)
Definition deleteCalls (evs : list Event) : nat :=
  List.length (filter isDeleteFile evs).

(** [r] is the first entry of [files], in list order, that passes [test]. *)
Definition firstSat (test : FileRecord -> bool) (files : list FileRecord)
    (r : FileRecord) : Prop :=
  exists before after,
    files = (before ++ r :: after)%list /\
    (forall x, In x before -> test x = false) /\
    test r = true.

(** A stage gives [id]: its first candidate carries the identifier [id]. *)
Definition wins (test : FileRecord -> bool) (files : list FileRecord)
    (id : string) : Prop :=
  exists r, firstSat test files r /\ rec_fileId r = Some id /\ id <> "".


Section Vocabulary.
Context `{IK : ImageKit} `{RT : Runtime}.

(** The state after one [listFiles] call, and what the call resolved to
    ([None] when it threw). *)
Definition afterList (path : option string) (st : State) : State :=
  with_world (snd (listFiles path (world st))) (log (ListFiles path) st).

Definition listed (path : option string) (st : State) : option ListResponse :=
  match fst (listFiles path (world st)) with
  | Ret resp => Some resp
  | Throw _ => None
  end.

(** What the two methods give when run one after the other. *)
Definition fromFolder (u fp : string) (st : State) : option string :=
  match listed (Some (folderPathOf fp)) st with
  | Some resp => matchInFolder u fp (fileNameOf fp) (listedFiles resp)
  | None => None
  end.

Definition fromAll (u fp : string) (st : State) : option string :=
  match listed None st with
  | Some resp => matchInAll u fp (fileNameOf fp) (listedFiles resp)
  | None => None
  end.

(** [st'] continues [st] with the events [evs] and the same logo
    variables. *)
Definition extends (st st' : State) (evs : list Event) : Prop :=
  trace st' = (trace st ++ evs)%list /\
  currentLogoUrl st' = currentLogoUrl st /\
  currentLogoFileId st' = currentLogoFileId st.

(** Every upload that returns carries both a URL and an identifier. *)
Definition uploadsComplete : Prop :=
  forall params w r w',
    upload params w = (Ret r, w') ->
    res_url r <> None /\ res_fileId r <> None.

(** The two logo variables are set together or not at all. *)
Definition paired (st : State) : Prop :=
  (currentLogoUrl st = None /\ currentLogoFileId st = None) \/
  (currentLogoUrl st <> None /\ currentLogoFileId st <> None).

End Vocabulary.

(** ** Further vocabulary: paths *)

(** No ['/'] occurs in [s]. *)
Fixpoint noSlash (s : string) : bool :=
  match s with
  | EmptyString => true
  | String c s' => negb (Ascii.eqb c "/"%char) && noSlash s'
  end.

(** A path segment: non-empty and without ['/']. *)
Definition isSegment (s : string) : bool := Js.truthy_str s && noSlash s.

(** ** Further sample data *)

Module Cases.

(** A host that refuses uploads. *)
Definition offline : Sample.Remote :=
  Sample.mkRemote Sample.failing Sample.failing (fun _ => true) false.

(** A multipart request: a file kept in memory under its original name,
    with a custom [fileName] field. *)
Definition multipart : LogoRequest :=
  mkLogoRequest None (Some "custom.png")
    (Some (mkMulterFile (Some "logo-final.png") (Some "PNG-bytes") None)).

End Cases.

(** ** A state-and-exception monad over any state *)

Definition Eff (S A : Type) : Type := S -> Outcome A * S.

Definition eret {S A} (a : A) : Eff S A := fun s => (Ret a, s).

Definition ethrow {S A} (e : Error) : Eff S A := fun s => (Throw e, s).

Definition ebind {S A B} (m : Eff S A) (k : A -> Eff S B) : Eff S B :=
  fun s =>
    match m s with
    | (Ret a, s') => k a s'
    | (Throw e, s') => (Throw e, s')
    end.

(** [try { m } catch (e) { h e }] *)
Definition ecatch {S A} (m : Eff S A) (h : Error -> Eff S A) : Eff S A :=
  fun s =>
    match m s with
    | (Ret a, s') => (Ret a, s')
    | (Throw e, s') => h e s'
    end.

Notation "x <-- m ;; k" := (ebind m (fun x => k))
  (at level 61, m at next level, right associativity) : js_scope.
Notation "m ;;;; k" := (ebind m (fun _ => k))
  (at level 61, right associativity) : js_scope.

(** ** controllers/highlightedProductController.js *)

(** A [HighlightedProduct] document: the seller (an ObjectId, written as
    its string) and the highlighted product ids. *)
Record HighlightedDoc := mkHighlighted {
  hl_seller : string;
  productIds : list string
}.

(** What the controller reads of a [Product] document. *)
Record ProductDoc := mkProduct {
  p_name : string;
  p_productId : string;
  p_seller : string
}.

(** The database as the controller uses it, and the two runtime
    primitives it relies on: the [ObjectId] constructor ([None] when it
    throws) and [String.prototype.trim].  [findProduct productId seller]
    is [Product.findOne] for an active product with that [productId],
    restricted to [seller] when one is given.  Every query may throw. *)
Class Mongo := {
  Db : Type;
  ObjectId : string -> option string;
  trim : string -> string;
  findHighlighted : string -> Db -> Outcome (option HighlightedDoc) * Db;
  saveHighlighted : HighlightedDoc -> Db -> Outcome unit * Db;
  findProduct : string -> option string -> Db -> Outcome (option ProductDoc) * Db
}.

(** The double quote character, as a string. *)
Definition quote : string := String (Ascii.ascii_of_nat 34) EmptyString.

(** The queries made on the database. *)
Inductive DbEvent :=
| FindHighlighted (seller : string)
| SaveHighlighted (doc : HighlightedDoc)
| FindProduct (productId : string) (seller : option string).

(** The answers of the controller: [res.json] with the document (status
    200), or an error with its status. *)
Inductive HlResponse :=
| HlOk (message : option string) (highlighted : HighlightedDoc)
| HlError (status : nat) (error : string).

Section HighlightedController.
Context `{MG : Mongo}.

Record DbState := mkDbState {
  db : Db;
  queries : list DbEvent
}.

Definition call_findHighlighted (seller : string)
  : Eff DbState (option HighlightedDoc) :=
  fun st =>
    let (o, d) := findHighlighted seller (db st) in
    (o, mkDbState d (queries st ++ [FindHighlighted seller])).

Definition call_saveHighlighted (doc : HighlightedDoc) : Eff DbState unit :=
  fun st =>
    let (o, d) := saveHighlighted doc (db st) in
    (o, mkDbState d (queries st ++ [SaveHighlighted doc])).

Definition call_findProduct (productId : string) (seller : option string)
  : Eff DbState (option ProductDoc) :=
  fun st =>
    let (o, d) := findProduct productId seller (db st) in
    (o, mkDbState d (queries st ++ [FindProduct productId seller])).

(** [!productId || !productId.trim()] *)
Definition blank (productId : option string) : bool :=
  match productId with
  | None => true
  | Some s => negb (Js.truthy_str s) || negb (Js.truthy_str (trim s))
  end.

(** [getHighlightedProducts] *)
Definition getHighlightedProducts (sellerId : string) : Eff DbState HlResponse :=
  ecatch
    (match ObjectId sellerId with
     | None => eret (HlError 400 "Invalid seller ID format")
     | Some sellerObjectId =>
         found <-- call_findHighlighted sellerObjectId ;;
         highlighted <--
           match found with
           | Some h => eret h
           | None =>
               let h := mkHighlighted sellerObjectId [] in
               call_saveHighlighted h ;;;; eret h
           end ;;
         eret (HlOk None highlighted)
     end)
    (fun error => eret (HlError 500 (message error))).

(** [addHighlightedProduct] *)
Definition addHighlightedProduct (sellerId : string) (productId : option string)
  : Eff DbState HlResponse :=
  ecatch
    (if blank productId then eret (HlError 400 "Product ID is required")
     else
       let trimmedProductId := trim (Js.to_string productId) in
       match ObjectId sellerId with
       | None => eret (HlError 400 "Invalid seller ID format")
       | Some sellerObjectId =>
           product <-- call_findProduct trimmedProductId (Some sellerObjectId) ;;
           match product with
           | None =>
               productExists <-- call_findProduct trimmedProductId None ;;
               match productExists with
               | Some _ =>
                   eret (HlError 403
                     ("Product with ID " ++ quote ++ trimmedProductId ++ quote ++
                      " belongs to a different seller. You can only highlight your own products."))
               | None =>
                   eret (HlError 404
                     ("Product with ID " ++ quote ++ trimmedProductId ++ quote ++
                      " not found. Please make sure the product ID matches exactly (case-sensitive) and the product is active."))
               end
           | Some _ =>
               found <-- call_findHighlighted sellerObjectId ;;
               let continue (highlighted : HighlightedDoc) :=
                 call_saveHighlighted highlighted ;;;;
                 updatedHighlighted <-- call_findHighlighted sellerObjectId ;;
                 match updatedHighlighted with
                 | None =>
                     ethrow (mkError
                       "Cannot read properties of null (reading 'productIds')")
                 | Some updated =>
                     eret (HlOk (Some "Product added to highlighted products")
                                updated)
                 end in
               match found with
               | None => continue (mkHighlighted sellerObjectId [trimmedProductId])
               | Some h =>
                   if existsb (String.eqb trimmedProductId) (productIds h)
                   then eret (HlError 400
                                "Product ID already exists in highlighted products")
                   else continue (mkHighlighted (hl_seller h)
                                    (productIds h ++ [trimmedProductId]))
               end
           end
       end)
    (fun error => eret (HlError 500 (message error))).

(** [removeHighlightedProduct] *)
Definition removeHighlightedProduct (sellerId : string)
    (productId : option string) : Eff DbState HlResponse :=
  ecatch
    (if blank productId then eret (HlError 400 "Product ID is required")
     else
       let trimmedProductId := trim (Js.to_string productId) in
       match ObjectId sellerId with
       | None => eret (HlError 400 "Invalid seller ID format")
       | Some sellerObjectId =>
           found <-- call_findHighlighted sellerObjectId ;;
           match found with
           | None => eret (HlError 404 "No highlighted products found")
           | Some h =>
               let beforeCount := List.length (productIds h) in
               let remaining :=
                 filter (fun id => negb (String.eqb id trimmedProductId))
                        (productIds h) in
               let afterCount := List.length remaining in
               if (beforeCount =? afterCount)%nat
               then eret (HlError 404
                            "Product ID not found in highlighted products")
               else
                 let h' := mkHighlighted (hl_seller h) remaining in
                 call_saveHighlighted h' ;;;;
                 eret (HlOk (Some "Product removed from highlighted products") h')
           end
       end)
    (fun error => eret (HlError 500 (message error))).

(** [updateHighlightedProducts]; [productIds] is [None] when the body
    carries no array. *)
Definition updateHighlightedProducts (sellerId : string)
    (ids : option (list string)) : Eff DbState HlResponse :=
  ecatch
    (match ids with
     | None => eret (HlError 400 "productIds must be an array")
     | Some l =>
         found <-- call_findHighlighted sellerId ;;
         let highlighted :=
           match found with
           | None => mkHighlighted sellerId (map trim l)
           | Some h => mkHighlighted (hl_seller h) (map trim l)
           end in
         call_saveHighlighted highlighted ;;;;
         eret (HlOk (Some "Highlighted products updated") highlighted)
     end)
    (fun error => eret (HlError 500 (message error))).

End HighlightedController.

(** ** A concrete database, for running the controller *)

Module Shop.

(** Documents and products held in memory; [down] makes every query
    throw. *)
Record Store := mkStore {
  docs : list HighlightedDoc;
  products : list ProductDoc;
  down : bool
}.

(** Leading spaces removed. *)
Fixpoint trimStart (s : string) : string :=
  match s with
  | String c s' => if Ascii.eqb c " "%char then trimStart s' else s
  | EmptyString => EmptyString
  end.

(** The characters of [s], last one first. *)
Fixpoint reverse (s : string) : string :=
  match s with
  | EmptyString => EmptyString
  | String c s' => reverse s' ++ String c EmptyString
  end.

(** Spaces removed at both ends. *)
Definition trimSpaces (s : string) : string :=
  reverse (trimStart (reverse (trimStart s))).

Definition unavailable {A} : Outcome A := Throw (mkError "connection lost").

Definition mongo : Mongo := {|
  Db := Store;
  ObjectId := fun s => if (String.length s =? 24)%nat then Some s else None;
  trim := trimSpaces;
  findHighlighted := fun seller st =>
    if down st then (unavailable, st)
    else (Ret (find (fun d => String.eqb (hl_seller d) seller) (docs st)), st);
  saveHighlighted := fun doc st =>
    if down st then (unavailable, st)
    else (Ret tt,
          mkStore (doc :: filter (fun d => negb (String.eqb (hl_seller d)
                                                            (hl_seller doc)))
                                 (docs st))
                  (products st) (down st));
  findProduct := fun productId seller st =>
    if down st then (unavailable, st)
    else (Ret (find (fun p => String.eqb (p_productId p) productId &&
                              match seller with
                              | Some s => String.eqb (p_seller p) s
                              | None => true
                              end)
                    (products st)), st)
|}.

Definition seller : string := "64b7f0c2a1d3e4f5a6b7c8d9".

(** A shop with one highlighted product and two products of the seller. *)
Definition open : Store :=
  mkStore [mkHighlighted seller ["P-1"]]
          [mkProduct "Lamp" "P-1" seller; mkProduct "Vase" "P-2" seller]
          false.

Definition at_ (s : Store) : @DbState mongo := @mkDbState mongo s [].

End Shop.

(** ** scripts and config/db.js: maintenance scripts *)

(** How a script step ends: normally, by a thrown error, or by
    [process.exit], which ends the process on the spot. *)
Inductive Run (A : Type) : Type :=
| Done (a : A)
| Failed (e : Error)
| Exited (code : nat).
Arguments Done {A} a.
Arguments Failed {A} e.
Arguments Exited {A} code.

Inductive Collection :=
| Order | Product | Cart | Category | HighlightedProduct | User | Customer.

(** The filters the scripts pass. *)
Inductive Filter :=
| Everything
| RoleSeller
| RoleCustomer
| TaxMissing
| TaxNullish
| TaxPresent.

(** The database operations the scripts await. *)
Inductive DbOp :=
| Connect
| CountDocuments (c : Collection) (f : Filter)
| DeleteMany (c : Collection) (f : Filter)
| UpdateManyTaxZero (c : Collection) (f : Filter)
| Find (c : Collection) (f : Filter) (limit : option nat)
| CloseConnection
| Disconnect.

(** The database driver as the scripts use it: each operation returns a
    number (a count, or the number of documents found or changed) or
    throws. *)
Class Mongoose := {
  Cluster : Type;
  exec : DbOp -> Cluster -> Outcome nat * Cluster
}.

Section Scripts.
Context `{MO : Mongoose}.

(** The cluster and the operations performed so far, each with whether it
    returned. *)
Record ScriptState := mkScriptState {
  cluster : Cluster;
  performed : list (DbOp * bool)
}.

Definition Script (A : Type) : Type := ScriptState -> Run A * ScriptState.

Definition sret {A} (a : A) : Script A := fun st => (Done a, st).

Definition sfail {A} (e : Error) : Script A := fun st => (Failed e, st).

(** [process.exit(code)] *)
Definition exit {A} (code : nat) : Script A := fun st => (Exited code, st).

Definition sbind {A B} (m : Script A) (k : A -> Script B) : Script B :=
  fun st =>
    match m st with
    | (Done a, st') => k a st'
    | (Failed e, st') => (Failed e, st')
    | (Exited code, st') => (Exited code, st')
    end.

(** [try { m } catch (e) { h e }]: an exit is not caught. *)
Definition scatch {A} (m : Script A) (h : Error -> Script A) : Script A :=
  fun st =>
    match m st with
    | (Failed e, st') => h e st'
    | other => other
    end.

(** [try { m } finally { f }]: [f] runs unless the process has exited; the
    completion of [m] stands when [f] completes normally. *)
Definition sfinally {A} (m : Script A) (f : Script unit) : Script A :=
  fun st =>
    match m st with
    | (Exited code, st') => (Exited code, st')
    | (completion, st') =>
        match f st' with
        | (Done _, st'') => (completion, st'')
        | (Failed e, st'') => (Failed e, st'')
        | (Exited code, st'') => (Exited code, st'')
        end
    end.

(** [await] of one database operation. *)
Definition perform (op : DbOp) : Script nat :=
  fun st =>
    let (o, c) := exec op (cluster st) in
    (match o with Ret n => Done n | Throw e => Failed e end,
     mkScriptState c (performed st ++ [(op, returned o)])).

End Scripts.

Notation "x <~ m ;; k" := (sbind m (fun x => k))
  (at level 61, m at next level, right associativity) : js_scope.

Section ScriptBodies.
Context `{MO : Mongoose}.

(** [connectDB] of config/db.js *)
Definition connectDB : Script unit :=
  scatch (conn <~ perform Connect ;; sret tt)
         (fun error => exit 1).

(** The [try] block of [cleanupData] *)
Definition cleanupSteps : Script unit :=
  connected <~ connectDB ;;
  orderCount <~ perform (CountDocuments Order Everything) ;;
  productCount <~ perform (CountDocuments Product Everything) ;;
  cartCount <~ perform (CountDocuments Cart Everything) ;;
  categoryCount <~ perform (CountDocuments Category Everything) ;;
  highlightedProductCount <~ perform (CountDocuments HighlightedProduct Everything) ;;
  userCount <~ perform (CountDocuments User Everything) ;;
  customerCount <~ perform (CountDocuments Customer Everything) ;;
  orderResult <~ perform (DeleteMany Order Everything) ;;
  productResult <~ perform (DeleteMany Product Everything) ;;
  cartResult <~ perform (DeleteMany Cart Everything) ;;
  categoryResult <~ perform (DeleteMany Category Everything) ;;
  highlightedProductResult <~ perform (DeleteMany HighlightedProduct Everything) ;;
  remainingUserCount <~ perform (CountDocuments User Everything) ;;
  remainingCustomerCount <~ perform (CountDocuments Customer Everything) ;;
  sellerCount <~ perform (CountDocuments User RoleSeller) ;;
  customerUserCount <~ perform (CountDocuments User RoleCustomer) ;;
  remainingOrderCount <~ perform (CountDocuments Order Everything) ;;
  remainingProductCount <~ perform (CountDocuments Product Everything) ;;
  remainingCartCount <~ perform (CountDocuments Cart Everything) ;;
  remainingCategoryCount <~ perform (CountDocuments Category Everything) ;;
  remainingHighlightedProductCount <~
    perform (CountDocuments HighlightedProduct Everything) ;;
  sret tt.

(** [cleanupData] *)
Definition cleanupData : Script unit :=
  sfinally
    (scatch cleanupSteps (fun error => sfail error))
    (closed <~ perform CloseConnection ;; exit 0).

(** The script: [cleanupData().catch(error => process.exit(1))] *)
Definition runCleanup : Script unit :=
  scatch cleanupData (fun error => exit 1).

(** [updateProductsWithTaxPercentage]; run at top level with no handler. *)
Definition updateProductsWithTaxPercentage : Script unit :=
  sfinally
    (scatch
       (connected <~ perform Connect ;;
        result <~ perform (UpdateManyTaxZero Product TaxMissing) ;;
        result2 <~ perform (UpdateManyTaxZero Product TaxNullish) ;;
        productsWithTax <~ perform (Find Product TaxPresent None) ;;
        sampleProducts <~ perform (Find Product Everything (Some 3)) ;;
        sret tt)
       (fun error => sret tt))
    (disconnected <~ perform Disconnect ;; sret tt).

End ScriptBodies.

(** ** Vocabulary of the scripts *)

(** The operations of a plan run one after the other until one throws. *)
Fixpoint runCalls `{MO : Mongoose} (ops : list DbOp) : Script unit :=
  match ops with
  | [] => sret tt
  | op :: rest => sbind (perform op) (fun _ => runCalls rest)
  end.

(** What [cleanupData] performs after connecting, in order. *)
Definition cleanupPlan : list DbOp :=
  [CountDocuments Order Everything; CountDocuments Product Everything;
   CountDocuments Cart Everything; CountDocuments Category Everything;
   CountDocuments HighlightedProduct Everything;
   CountDocuments User Everything; CountDocuments Customer Everything;
   DeleteMany Order Everything; DeleteMany Product Everything;
   DeleteMany Cart Everything; DeleteMany Category Everything;
   DeleteMany HighlightedProduct Everything;
   CountDocuments User Everything; CountDocuments Customer Everything;
   CountDocuments User RoleSeller; CountDocuments User RoleCustomer;
   CountDocuments Order Everything; CountDocuments Product Everything;
   CountDocuments Cart Everything; CountDocuments Category Everything;
   CountDocuments HighlightedProduct Everything].

(** The plan of the tax script, its connection included. *)
Definition taxPlan : list DbOp :=
  [Connect; UpdateManyTaxZero Product TaxMissing;
   UpdateManyTaxZero Product TaxNullish;
   Find Product TaxPresent None; Find Product Everything (Some 3)].

(** The collections on which a log records a [deleteMany]. *)
Definition deletedCollections (log : list (DbOp * bool)) : list Collection :=
  flat_map (fun ev => match fst ev with DeleteMany c _ => [c] | _ => [] end) log.

(** The operations of a log that change documents. *)
Definition isWrite (op : DbOp) : bool :=
  match op with
  | DeleteMany _ _ | UpdateManyTaxZero _ _ => true
  | _ => false
  end.

(** All operations of [log] returned. *)
Definition allReturned (log : list (DbOp * bool)) : bool :=
  forallb snd log.

(** A cluster that answers by a fixed rule. *)
Module Ops.

Definition scripted (rule : DbOp -> option nat) : Mongoose := {|
  Cluster := unit;
  exec := fun op c =>
    match rule op with
    | Some n => (Ret n, c)
    | None => (Throw (mkError "operation failed"), c)
    end
|}.

(** Everything works except deleting products. *)
Definition productsLocked (op : DbOp) : option nat :=
  match op with
  | DeleteMany Product _ => None
  | _ => Some 0
  end.

(** The server cannot be reached. *)
Definition unreachable (op : DbOp) : option nat :=
  match op with
  | Disconnect => Some 0
  | _ => None
  end.

Definition fresh (rule : DbOp -> option nat) : @ScriptState (scripted rule) :=
  @mkScriptState (scripted rule) tt [].

End Ops.

(** ** A product with a kept and a removed photo *)

Module Album.

(** The photo the seller keeps and the one the seller removes; the name of
    the removed one ends with the name of the kept one. *)
Definition kept : string := "https://ik.example.io/acct/products/photo.jpg".

Definition removed : string := "https://ik.example.io/acct/products/x-photo.jpg".

(** Their records on the host, with stored paths relative to the
    endpoint. *)
Definition keptRecord : FileRecord :=
  Sample.asset "/products/photo.jpg" kept "photo.jpg" "id-kept".

Definition removedRecord : FileRecord :=
  Sample.asset "/products/x-photo.jpg" removed "x-photo.jpg" "id-removed".

(** A host whose folder listing holds both records, the kept one first. *)
Definition inFolder : Sample.Remote :=
  Sample.mkRemote (Ret (RespArray [keptRecord; removedRecord]))
                  (Ret (RespArray [])) (fun _ => true) true.

(** A host whose folder listing is empty and whose global listing holds
    both records, the kept one first. *)
Definition onlyGlobal : Sample.Remote :=
  Sample.mkRemote (Ret (RespArray []))
                  (Ret (RespArray [keptRecord; removedRecord]))
                  (fun _ => true) true.

End Album.

(** * Properties *)

(** ** String primitives against their relational meaning *)

Lemma startsWith_spec (s p : string) :
  Js.startsWith s p = true <-> exists r, s = p ++ r.
Proof.
  revert s; induction p as [|c p IH]; intros s; simpl.
  - split; [intros _; exists s; reflexivity | reflexivity].
  - destruct s as [|d s].
    + split; [discriminate | intros [r Hr]; discriminate].
    + rewrite andb_true_iff, Ascii.eqb_eq, IH. split.
      * intros [-> [r ->]]. exists r. reflexivity.
      * intros [r Hr]. injection Hr as -> ->. split; [reflexivity | eauto].
Qed.

Lemma includes_spec (s n : string) :
  Js.includes s n = true <-> exists a b, s = a ++ n ++ b.
Proof.
  induction s as [|c s IH]; simpl.
  - rewrite orb_false_r, startsWith_spec. split.
    + intros [r Hr]. exists "", r. exact Hr.
    + intros [a [b Hab]]. destruct a; simpl in Hab.
      * eauto.
      * discriminate.
  - rewrite orb_true_iff, startsWith_spec, IH. split.
    + intros [[r Hr] | [a [b Hab]]].
      * exists "", r. exact Hr.
      * exists (String c a), b. simpl. now rewrite Hab.
    + intros [a [b Hab]]. destruct a as [|d a]; simpl in Hab.
      * left. eauto.
      * right. injection Hab as _ Hs. eauto.
Qed.

Lemma truthy_str_spec (s : string) : Js.truthy_str s = true <-> s <> "".
Proof. destruct s; simpl; split; congruence. Qed.

(** ** C7: URL classification *)

(** C7. A string is classified as hosted exactly when an endpoint is
    configured (set and non-empty) and the string either contains the
    endpoint as a substring, compared character by character, or starts
    with the provider domain; with no endpoint configured every string,
    also one on the provider domain, is not hosted. *)
Theorem isImageKitUrl_spec (endpoint : option string) (url : string) :
  (isImageKitUrl endpoint (Some url) = true <->
   exists e, endpoint = Some e /\ e <> "" /\
             ((exists a b, url = a ++ e ++ b) \/
              (exists r, url = "https://ik.imagekit.io/" ++ r)))
  /\ isImageKitUrl None (Some url) = false
  /\ isImageKitUrl None (Some ("https://ik.imagekit.io/" ++ url)) = false.
Proof.
  split; [| split; [destruct url; reflexivity | reflexivity]].
  unfold isImageKitUrl. split.
  - destruct (Js.truthy_str url) eqn:Hu; cbn [negb]; [| discriminate].
    destruct endpoint as [e|]; [| discriminate].
    destruct (Js.truthy_str e) eqn:He; cbn [negb]; [| discriminate].
    rewrite orb_true_iff, includes_spec, startsWith_spec. intros H.
    exists e. split; [reflexivity|]. split; [now apply truthy_str_spec | exact H].
  - intros [e [-> [He H]]].
    apply truthy_str_spec in He. rewrite He. cbn [negb].
    assert (Hu : Js.truthy_str url = true).
    { apply truthy_str_spec. intros ->.
      destruct H as [[a [b H]] | [r H]].
      - destruct a; [destruct e; [discriminate | discriminate] | discriminate].
      - discriminate. }
    rewrite Hu. cbn [negb].
    rewrite orb_true_iff, includes_spec, startsWith_spec. exact H.
Qed.

(** The scenario of the specification: the same literal string is hosted
    under the configured endpoint and not hosted without one. *)
Example isImageKitUrl_scenario :
  isImageKitUrl (Some "https://ik.example.io/acct")
                (Some "https://ik.example.io/acct/app-assets/app-logo.png") = true
  /\ isImageKitUrl None
                (Some "https://ik.example.io/acct/app-assets/app-logo.png") = false.
Proof. split; reflexivity. Qed.

(** An endpoint set to the empty string counts as not configured. *)
Example isImageKitUrl_empty_endpoint :
  isImageKitUrl (Some "") (Some "https://ik.imagekit.io/acct/a.jpg") = false.
Proof. reflexivity. Qed.

(** ** Identifier resolution *)

Section ResolverFacts.
Context `{IK : ImageKit} `{RT : Runtime}.

Lemma extract_truthy (x : option string) (fp : string) :
  extractImageKitFilePath x = Some fp -> Js.truthy_str fp = true.
Proof.
  unfold extractImageKitFilePath. destruct x as [u|]; [| discriminate].
  destruct (Js.truthy_str u) eqn:Hu; cbn [negb]; [| discriminate].
  destruct (URL_pathname u) as [pathname|].
  - destruct (0 <? _)%nat; [| discriminate].
    intros H; injection H as <-. reflexivity.
  - destruct (Js.startsWith u "/"); [| discriminate].
    intros H; injection H as <-. exact Hu.
Qed.

Lemma method1_run (u fp : string) (st : State) :
  method1 u fp st =
  (Ret (match listed (Some (folderPathOf fp)) st with
        | Some resp => matchInFolder u fp (fileNameOf fp) (listedFiles resp)
        | None => None
        end),
   afterList (Some (folderPathOf fp)) st).
Proof.
  unfold method1, try_catch, bind, call_listFiles, listed, afterList, ret.
  destruct (listFiles (Some (folderPathOf fp)) (world st)) as [[resp|e] w];
    reflexivity.
Qed.

Lemma method2_run (u fp : string) (st : State) :
  method2 u fp st =
  (Ret (match listed None st with
        | Some resp => matchInAll u fp (fileNameOf fp) (listedFiles resp)
        | None => None
        end),
   afterList None st).
Proof.
  unfold method2, try_catch, bind, call_listFiles, listed, afterList, ret.
  destruct (listFiles None (world st)) as [[resp|e] w]; reflexivity.
Qed.

Lemma getImageKitFileId_run (u fp : string) (st : State) :
  Js.truthy_str u = true ->
  extractImageKitFilePath (Some u) = Some fp ->
  getImageKitFileId (Some u) st =
  match fromFolder u fp st with
  | Some id => (Ret (Some id), afterList (Some (folderPathOf fp)) st)
  | None =>
      let st1 := afterList (Some (folderPathOf fp)) st in
      (Ret (fromAll u fp st1), afterList None st1)
  end.
Proof.
  intros Hu Hfp. pose proof (extract_truthy _ _ Hfp) as Ht.
  unfold getImageKitFileId. rewrite Hu. cbn [negb]. rewrite Hfp, Ht. cbn [negb].
  unfold try_catch at 1 2, bind. rewrite method1_run. fold (fromFolder u fp st).
  destruct (fromFolder u fp st) as [id|]; [reflexivity|].
  rewrite method2_run. fold (fromAll u fp (afterList (Some (folderPathOf fp)) st)).
  destruct (fromAll u fp _); reflexivity.
Qed.

End ResolverFacts.

Section ResolverTotal.
Context `{IK : ImageKit} `{RT : Runtime}.

Lemma findWithId_truthy (test : FileRecord -> bool) (files : list FileRecord)
    (id : string) :
  findWithId test files = Some id -> Js.truthy_str id = true.
Proof.
  unfold findWithId. destruct (find test files) as [m|]; [| discriminate].
  destruct (Js.truthy (rec_fileId m)) eqn:Ht; [| discriminate].
  intros H. rewrite H in Ht. exact Ht.
Qed.

Lemma matchInFolder_truthy u fp fn files id :
  matchInFolder u fp fn files = Some id -> Js.truthy_str id = true.
Proof.
  unfold matchInFolder. destruct (0 <? _)%nat; [| discriminate].
  destruct (findWithId (pathTest fp) files) eqn:E1.
  { intros H; injection H as <-. eapply findWithId_truthy; eauto. }
  destruct (findWithId (urlTest u) files) eqn:E2.
  { intros H; injection H as <-. eapply findWithId_truthy; eauto. }
  apply findWithId_truthy.
Qed.

Lemma matchInAll_truthy u fp fn files id :
  matchInAll u fp fn files = Some id -> Js.truthy_str id = true.
Proof.
  unfold matchInAll. destruct (filter _ files) as [|m ms]; [discriminate|].
  destruct (Js.truthy (rec_fileId m)) eqn:Ht; [| discriminate].
  intros H. rewrite H in Ht. exact Ht.
Qed.

Lemma extends_refl (st : State) : extends st st [].
Proof. unfold extends. rewrite app_nil_r. auto. Qed.

Lemma extends_afterList (path : option string) (st : State) :
  extends st (afterList path st) [ListFiles path].
Proof. unfold extends, afterList, with_world, log. simpl. auto. Qed.

Lemma extends_trans (a b c : State) (e1 e2 : list Event) :
  extends a b e1 -> extends b c e2 -> extends a c (e1 ++ e2)%list.
Proof.
  unfold extends. intros (T1 & U1 & F1) (T2 & U2 & F2).
  rewrite T2, T1, app_assoc, U2, U1, F2, F1. auto.
Qed.

(** Resolution always returns, only lists, and an identifier it returns is
    a non-empty string. *)
Lemma getImageKitFileId_total (x : option string) (st : State) :
  exists r st' evs,
    getImageKitFileId x st = (Ret r, st') /\
    extends st st' evs /\
    attempts evs = [] /\ deleteCalls evs = 0 /\
    (forall id, r = Some id -> Js.truthy_str id = true).
Proof.
  destruct x as [u|].
  2:{ exists None, st, []. repeat split; auto using extends_refl; try apply extends_refl.
      discriminate. }
  destruct (Js.truthy_str u) eqn:Hu.
  2:{ exists None, st, []. unfold getImageKitFileId, try_catch. rewrite Hu.
      repeat split; try apply extends_refl. discriminate. }
  destruct (extractImageKitFilePath (Some u)) as [fp|] eqn:Hfp.
  2:{ exists None, st, []. unfold getImageKitFileId, try_catch. rewrite Hu.
      cbn [negb]. rewrite Hfp.
      repeat split; try apply extends_refl. discriminate. }
  rewrite (getImageKitFileId_run u fp st Hu Hfp).
  destruct (fromFolder u fp st) as [id|] eqn:E1.
  - exists (Some id), (afterList (Some (folderPathOf fp)) st),
      [ListFiles (Some (folderPathOf fp))].
    split; [reflexivity|]. split; [apply extends_afterList|].
    split; [reflexivity|]. split; [reflexivity|].
    intros id' H; injection H as <-. unfold fromFolder in E1.
    destruct (listed _ st); [| discriminate].
    eapply matchInFolder_truthy; eauto.
  - eexists _, _, ([ListFiles (Some (folderPathOf fp))] ++ [ListFiles None])%list.
    split; [reflexivity|].
    split; [eapply extends_trans; apply extends_afterList|].
    split; [reflexivity|]. split; [reflexivity|].
    intros id' H. unfold fromAll in H.
    destruct (listed None _); [| discriminate].
    eapply matchInAll_truthy; eauto.
Qed.

(** C4. When the folder-scoped listing and the global listing that follows
    it both throw, resolution returns not-found ([null]) and nothing is
    thrown to the caller, for every argument. *)
Theorem resolution_survives_list_failure (url : option string) (st : State) :
  (forall folder, listed (Some folder) st = None) ->
  (forall folder, listed None (afterList (Some folder) st) = None) ->
  exists st', getImageKitFileId url st = (Ret None, st').
Proof.
  intros H1 H2.
  destruct url as [u|]; [| eexists; reflexivity].
  destruct (Js.truthy_str u) eqn:Hu.
  2:{ eexists. unfold getImageKitFileId, try_catch. rewrite Hu. reflexivity. }
  destruct (extractImageKitFilePath (Some u)) as [fp|] eqn:Hfp.
  2:{ eexists. unfold getImageKitFileId, try_catch. rewrite Hu. cbn [negb].
      rewrite Hfp. reflexivity. }
  rewrite (getImageKitFileId_run u fp st Hu Hfp).
  unfold fromFolder. rewrite H1. cbv zeta. unfold fromAll. rewrite H2.
  eexists. reflexivity.
Qed.

End ResolverTotal.

(** On a host where both listings fail, a well-formed photo URL resolves to
    not-found after both listings were tried. *)
Lemma resolution_survives_list_failure_sample :
  (forall folder, @listed Sample.kit (Some folder)
                    (Sample.start Sample.unreachable) = None) /\
  (forall folder, @listed Sample.kit None
                    (@afterList Sample.kit (Some folder)
                       (Sample.start Sample.unreachable)) = None) /\
  exists st', @getImageKitFileId Sample.kit Sample.runtime
                (Some Sample.photo) (Sample.start Sample.unreachable)
              = (Ret None, st').
Proof.
  split; [reflexivity|]. split; [reflexivity|].
  apply (@resolution_survives_list_failure Sample.kit Sample.runtime
           (Some Sample.photo) (Sample.start Sample.unreachable));
    reflexivity.
Defined.

(** ** Deletion *)

Lemma attempts_app (a b : list Event) :
  attempts (a ++ b) = (attempts a ++ attempts b)%list.
Proof. unfold attempts. apply flat_map_app. Qed.

Lemma deleteCalls_app (a b : list Event) :
  deleteCalls (a ++ b) = deleteCalls a + deleteCalls b.
Proof. unfold deleteCalls. now rewrite filter_app, length_app. Qed.

Lemma no_deleteCalls (evs : list Event) :
  deleteCalls evs = 0 -> forall id orig ok, ~ In (DeleteFile id orig ok) evs.
Proof.
  unfold deleteCalls. intros H id orig ok Hin.
  assert (Hf : In (DeleteFile id orig ok) (filter isDeleteFile evs))
    by (apply filter_In; split; [exact Hin | reflexivity]).
  destruct (filter isDeleteFile evs); [exact Hf | discriminate].
Qed.

Lemma no_attempts (evs : list Event) :
  attempts evs = [] -> forall x, ~ In (Attempt x) evs.
Proof.
  induction evs as [|ev evs IH]; intros H x; [intros [] |].
  intros [Hx | Hx].
  - subst ev. discriminate.
  - destruct ev; simpl in H; try discriminate; eapply IH; eauto.
Qed.

Section DeletionFacts.
Context `{IK : ImageKit} `{RT : Runtime}.

Lemma call_deleteFile_run (id orig : string) (st : State) :
  exists o st',
    call_deleteFile id orig st = (o, st') /\
    o = fst (deleteFile id (world st)) /\
    world st' = snd (deleteFile id (world st)) /\
    extends st st' [DeleteFile id orig (returned o)].
Proof.
  unfold call_deleteFile.
  destruct (deleteFile id (world st)) as [o w]. simpl.
  eexists _, _. split; [reflexivity|].
  unfold extends, with_world, log. simpl. auto.
Qed.

(** What one call of [deleteImageFromImageKit] does, whatever the host
    answers: it returns a boolean, logs one attempt for a non-empty
    argument, calls [deleteFile] at most once and only on behalf of its
    argument, and answers [true] exactly when that call returned. *)
Lemma deleteImageFromImageKit_shape (x : option string) (st : State) :
  exists b st' evs,
    deleteImageFromImageKit x st = (Ret b, st') /\
    extends st st' evs /\
    (b = true <-> exists id orig, In (DeleteFile id orig true) evs) /\
    attempts evs = match x with
                   | Some s => if Js.truthy_str s then [s] else []
                   | None => []
                   end /\
    deleteCalls evs <= 1 /\
    (forall id orig ok, In (DeleteFile id orig ok) evs ->
                        x = Some orig /\ Js.truthy_str orig = true).
Proof.
  assert (Hnone : forall st0 : State, exists (b : bool) st' evs,
             (Ret false, st0) = (Ret b, st') /\ extends st0 st' evs /\
             (b = true <-> exists id orig, In (DeleteFile id orig true) evs) /\
             attempts evs = [] /\ deleteCalls evs <= 1 /\
             (forall id orig ok, In (DeleteFile id orig ok) evs ->
                                 x = Some orig /\ Js.truthy_str orig = true)).
  { intros st0. exists false, st0, []. split; [reflexivity|].
    split; [apply extends_refl|]. split.
    - split; [discriminate | intros (? & ? & [])].
    - split; [reflexivity|]. split; [unfold deleteCalls; simpl; lia | intros ? ? ? []]. }
  destruct x as [s|]; [| apply Hnone].
  unfold deleteImageFromImageKit, try_catch.
  destruct (Js.truthy_str s) eqn:Hs; cbn [negb]; [| apply Hnone].
  unfold bind at 1, emit.
  destruct (isImageKitUrl IMAGEKIT_URL_ENDPOINT (Some s)).
  - unfold bind at 1.
    destruct (getImageKitFileId_total (Some s) (log (Attempt s) st))
      as (r & st1 & evs1 & Hrun & Hext & Hatt & Hdel & Hid).
    rewrite Hrun.
    assert (Hlog : extends st (log (Attempt s) st) [Attempt s])
      by (unfold extends, log; simpl; auto).
    pose proof (extends_trans _ _ _ _ _ Hlog Hext) as Hext1.
    destruct r as [id|].
    + rewrite (Hid id eq_refl). cbn [negb]. unfold bind, ret.
      destruct (call_deleteFile_run id s st1) as (o & st2 & Hc & Ho & _ & Hext2).
      rewrite Hc.
      pose proof (extends_trans _ _ _ _ _ Hext1 Hext2) as Hext3.
      assert (Hin : forall id' orig ok,
                 In (DeleteFile id' orig ok)
                    (([Attempt s] ++ evs1) ++ [DeleteFile id s (returned o)]) ->
                 id' = id /\ orig = s /\ ok = returned o).
      { intros id' orig ok Hin. apply in_app_or in Hin as [Hin | [Hin | []]].
        - destruct Hin as [Hin | Hin]; [discriminate|].
          exfalso. eapply no_deleteCalls; eauto.
        - injection Hin as <- <- <-. auto. }
      exists (returned o), st2, (([Attempt s] ++ evs1) ++ [DeleteFile id s (returned o)])%list.
      split; [destruct o; reflexivity|]. split; [exact Hext3|]. split.
      * split.
        -- intros Hb. exists id, s. apply in_or_app. right. rewrite Hb. now left.
        -- intros (id' & orig & Hin'). apply Hin in Hin' as (_ & _ & Hok). now symmetry.
      * split; [| split].
        -- rewrite !attempts_app, Hatt. reflexivity.
        -- rewrite !deleteCalls_app, Hdel. unfold deleteCalls. simpl. lia.
        -- intros id' orig ok Hin'. apply Hin in Hin' as (_ & -> & _). auto.
    + exists false, st1, ([Attempt s] ++ evs1)%list.
      split; [reflexivity|]. split; [exact Hext1|].
      assert (Hnd : forall id orig ok, ~ In (DeleteFile id orig ok) ([Attempt s] ++ evs1)).
      { intros id orig ok [Hin | Hin]; [discriminate|]. eapply no_deleteCalls; eauto. }
      split; [split; [discriminate | intros (id & orig & Hin); exfalso; eapply Hnd; eauto]|].
      split; [rewrite attempts_app, Hatt; reflexivity|].
      split; [rewrite deleteCalls_app, Hdel; unfold deleteCalls; simpl; lia|].
      intros id orig ok Hin. exfalso. eapply Hnd; eauto.
  - unfold bind, ret.
    destruct (call_deleteFile_run s s (log (Attempt s) st)) as (o & st2 & Hc & Ho & _ & Hext2).
    rewrite Hc.
    assert (Hlog : extends st (log (Attempt s) st) [Attempt s])
      by (unfold extends, log; simpl; auto).
    pose proof (extends_trans _ _ _ _ _ Hlog Hext2) as Hext3.
    exists (returned o), st2, ([Attempt s] ++ [DeleteFile s s (returned o)])%list.
    split; [destruct o; reflexivity|]. split; [exact Hext3|]. split.
    + split.
      * intros Hb. exists s, s. rewrite Hb. right. now left.
      * intros (id' & orig & [Hin | [Hin | []]]); [discriminate|].
        injection Hin as _ _ Hok. now symmetry.
    + split; [reflexivity|]. split; [unfold deleteCalls; simpl; lia|].
      intros id' orig ok [Hin | [Hin | []]]; [discriminate|].
      injection Hin as _ <- _. auto.
Qed.

End DeletionFacts.

Lemma in_attempts (x : string) (evs : list Event) :
  In (Attempt x) evs <-> In x (attempts evs).
Proof.
  unfold attempts. rewrite in_flat_map. split.
  - intros H. exists (Attempt x). split; [exact H | now left].
  - intros (ev & Hin & Hx). destruct ev; simpl in Hx; try contradiction.
    destruct Hx as [-> | []]. exact Hin.
Qed.

Section BatchFacts.
Context `{IK : ImageKit} `{RT : Runtime}.

(** The batch returns one outcome per image, in order; every non-empty
    image is attempted, and [deleteFile] is only called on behalf of an
    image of the batch. *)
Lemma deleteImageFiles_shape (images : list string) (st : State) :
  exists report st' evs,
    deleteImageFiles images st = (Ret report, st') /\
    extends st st' evs /\
    map fst report = images /\
    attempts evs = filter Js.truthy_str images /\
    (forall id orig ok, In (DeleteFile id orig ok) evs -> In orig images).
Proof.
  revert st. induction images as [|image rest IH]; intros st.
  - exists [], st, []. split; [reflexivity|]. split; [apply extends_refl|].
    split; [reflexivity|]. split; [reflexivity | intros ? ? ? []].
  - destruct (deleteImageFromImageKit_shape (Some image) st)
      as (b & st1 & evs1 & Hrun & Hext & _ & Hatt & _ & Horig).
    destruct (IH st1) as (report & st2 & evs2 & Hrun2 & Hext2 & Hmap & Hatt2 & Horig2).
    exists ((image, b) :: report), st2, (evs1 ++ evs2)%list.
    split; [simpl; unfold bind; rewrite Hrun, Hrun2; reflexivity|].
    split; [eapply extends_trans; eauto|].
    split; [simpl; now rewrite Hmap|].
    split.
    + rewrite attempts_app, Hatt, Hatt2. simpl.
      destruct (Js.truthy_str image); reflexivity.
    + intros id orig ok Hin. apply in_app_or in Hin as [Hin | Hin].
      * apply Horig in Hin as [Heq _]. injection Heq as ->. now left.
      * right. eapply Horig2; eauto.
Qed.

(** C5. [deleteImageFromImageKit] returns a boolean for every argument and
    every behaviour of the host, [true] exactly when its [deleteFile] call
    returned, and throws nothing; so a sequential batch of removals yields
    one outcome per image and attempts every (non-empty) image in order,
    whatever happened to the images before it. *)
Theorem delete_returns_boolean_batch_continues :
  (forall (x : option string) (st : State),
      exists b st' evs,
        deleteImageFromImageKit x st = (Ret b, st') /\
        extends st st' evs /\
        (b = true <-> exists id orig, In (DeleteFile id orig true) evs)) /\
  (forall (images : list string) (st : State),
      exists report st' evs,
        deleteImageFiles images st = (Ret report, st') /\
        extends st st' evs /\
        map fst report = images /\
        attempts evs = filter Js.truthy_str images).
Proof.
  split.
  - intros x st.
    destruct (deleteImageFromImageKit_shape x st) as (b & st' & evs & H1 & H2 & H3 & _).
    eauto 6.
  - intros images st.
    destruct (deleteImageFiles_shape images st)
      as (report & st' & evs & H1 & H2 & H3 & H4 & _).
    eauto 8.
Qed.

(** C9. A non-empty string that is not classified as hosted is not
    skipped: after the attempt is logged it is handed unchanged to
    [deleteFile] as the file identifier, and the answer is whether that
    call returned. *)
Theorem non_hosted_passed_verbatim (s : string) (st : State) :
  s <> "" ->
  isImageKitUrl IMAGEKIT_URL_ENDPOINT (Some s) = false ->
  exists st',
    deleteImageFromImageKit (Some s) st
      = (Ret (returned (fst (deleteFile s (world st)))), st') /\
    extends st st'
      [Attempt s; DeleteFile s s (returned (fst (deleteFile s (world st))))] /\
    world st' = snd (deleteFile s (world st)).
Proof.
  intros Hs Hurl. apply truthy_str_spec in Hs.
  unfold deleteImageFromImageKit, try_catch. rewrite Hs. cbn [negb].
  unfold bind at 1, emit. rewrite Hurl. unfold bind, ret, call_deleteFile.
  change (world (log (Attempt s) st)) with (world st).
  destruct (deleteFile s (world st)) as [[[]|e] w]; simpl;
    eexists; (split; [reflexivity|]);
    unfold extends, with_world, log; simpl; rewrite <- app_assoc; auto.
Qed.

Lemma imagesToDelete_In (current desired : list string) (u : string) :
  In u (imagesToDelete current desired) <->
  In u current /\ ~ In u desired /\
  isImageKitUrl IMAGEKIT_URL_ENDPOINT (Some u) = true.
Proof.
  unfold imagesToDelete. rewrite filter_In, andb_true_iff, negb_true_iff.
  assert (Hex : existsb (String.eqb u) desired = false <-> ~ In u desired).
  { rewrite <- not_true_iff_false, existsb_exists. split.
    - intros H Hin. apply H. exists u. split; [exact Hin | apply String.eqb_refl].
    - intros H (y & Hin & Heq). apply String.eqb_eq in Heq. subst y. auto. }
  rewrite Hex. tauto.
Qed.

(** Reconciliation returns a report, and the URL on whose behalf a delete
    attempt or a [deleteFile] call is made is always a photo of [current]
    that is absent from [desired] and that [isImageKitUrl] classifies as
    hosted.  This speaks of the URL handed to [deleteImageFromImageKit]
    only: the identifier handed to [deleteFile] is whatever resolution
    returns for that URL, and it can be the identifier of another asset,
    a kept one included, as the album at the end of this file shows. *)
Theorem reconcile_deletes_only_removed_hosted (current desired : list string)
    (st : State) :
  exists report st' evs,
    reconcile current desired st = (Ret report, st') /\
    extends st st' evs /\
    (forall u,
        In (Attempt u) evs \/ (exists id ok, In (DeleteFile id u ok) evs) ->
        In u current /\ ~ In u desired /\
        isImageKitUrl IMAGEKIT_URL_ENDPOINT (Some u) = true) /\
    (forall u, In u desired -> ~ In (Attempt u) evs /\
                                forall id ok, ~ In (DeleteFile id u ok) evs) /\
    (forall u, isImageKitUrl IMAGEKIT_URL_ENDPOINT (Some u) = false ->
               ~ In (Attempt u) evs /\
               forall id ok, ~ In (DeleteFile id u ok) evs).
Proof.
  unfold reconcile.
  destruct (deleteImageFiles_shape (imagesToDelete current desired) st)
    as (report & st' & evs & Hrun & Hext & _ & Hatt & Horig).
  assert (Hsel : forall u,
             In (Attempt u) evs \/ (exists id ok, In (DeleteFile id u ok) evs) ->
             In u (imagesToDelete current desired)).
  { intros u [Hin | (id & ok & Hin)].
    - apply in_attempts in Hin. rewrite Hatt in Hin.
      apply filter_In in Hin. tauto.
    - eapply Horig; eauto. }
  exists report, st', evs. split; [exact Hrun|]. split; [exact Hext|].
  split; [| split].
  - intros u Hu. apply imagesToDelete_In. auto.
  - intros u Hd. split.
    + intros Hin. apply (imagesToDelete_In current desired u); auto.
    + intros id ok Hin. apply (imagesToDelete_In current desired u); eauto.
  - intros u Hu. split.
    + intros Hin. assert (H : In u (imagesToDelete current desired)) by auto.
      apply imagesToDelete_In in H. destruct H as (_ & _ & H). congruence.
    + intros id ok Hin.
      assert (H : In u (imagesToDelete current desired)) by eauto.
      apply imagesToDelete_In in H. destruct H as (_ & _ & H). congruence.
Qed.

End BatchFacts.

(** A legacy local path is handed to the host as it is. *)
Lemma non_hosted_passed_verbatim_sample :
  Sample.localPhoto <> "" /\
  isImageKitUrl (@IMAGEKIT_URL_ENDPOINT Sample.runtime)
                (Some Sample.localPhoto) = false /\
  exists st',
    @deleteImageFromImageKit Sample.kit Sample.runtime (Some Sample.localPhoto)
      (Sample.start Sample.stocked) = (Ret true, st') /\
    @extends Sample.kit (Sample.start Sample.stocked) st'
      [Attempt Sample.localPhoto;
       DeleteFile Sample.localPhoto Sample.localPhoto true] /\
    world st' = Sample.stocked.
Proof.
  split; [discriminate|]. split; [reflexivity|].
  apply (@non_hosted_passed_verbatim Sample.kit Sample.runtime
           Sample.localPhoto (Sample.start Sample.stocked));
    [discriminate | reflexivity].
Defined.

(** The scenario of the specification: with [current = [a; b]] and
    [desired = [a]] there is exactly one delete attempt, for [b], with the
    identifier [b] resolves to. *)
Example reconcile_scenario :
  let run := @reconcile Sample.kit Sample.runtime
               [Sample.photo; Sample.photoB] [Sample.photo]
               (Sample.start Sample.stocked) in
  fst run = Ret [(Sample.photoB, true)] /\
  trace (snd run) =
    [Attempt Sample.photoB; ListFiles (Some "/acct/products");
     DeleteFile "id-b" Sample.photoB true].
Proof. vm_compute. split; reflexivity. Qed.

(** ** The order of matching *)

Lemma find_firstSat (test : FileRecord -> bool) (files : list FileRecord)
    (r : FileRecord) :
  find test files = Some r <-> firstSat test files r.
Proof.
  unfold firstSat. split.
  - induction files as [|x xs IH]; simpl; [discriminate|].
    destruct (test x) eqn:Hx.
    + intros H; injection H as ->. exists [], xs. simpl. split; [reflexivity|].
      split; [intros ? [] | exact Hx].
    + intros H. destruct (IH H) as (before & after & -> & Hb & Hr).
      exists (x :: before), after. split; [reflexivity|].
      split; [| exact Hr].
      intros y [<- | Hy]; auto.
  - intros (before & after & -> & Hb & Hr).
    induction before as [|x before IH]; simpl.
    + now rewrite Hr.
    + rewrite (Hb x (or_introl eq_refl)). apply IH.
      intros y Hy. apply Hb. now right.
Qed.




Section MatchingOrder.
Context `{IK : ImageKit} `{RT : Runtime}.


End MatchingOrder.



(** C2 at its failing input.  The folder listing is empty; the global
    listing holds an archived copy, whose stored path only ends with the
    filename, before the record whose stored path equals the extracted
    path.  The fallback returns the copy's identifier. *)
Lemma global_fallback_ignores_exact_path :
  let fp := "/acct/products/a.jpg" in
  @extractImageKitFilePath Sample.runtime (Some Sample.photo) = Some fp /\
  @listed Sample.kit None
     (@afterList Sample.kit (Some (folderPathOf fp)) (Sample.start Sample.misfiled))
    = Some (RespArray [Sample.archived; Sample.exact]) /\
  pathTest fp Sample.exact = true /\
  pathTest fp Sample.archived = false /\
  rec_fileId Sample.exact = Some "id-a" /\
  fst (@getImageKitFileId Sample.kit Sample.runtime (Some Sample.photo)
         (Sample.start Sample.misfiled)) = Ret (Some "id-copy").
Proof. cbv zeta. repeat split; reflexivity. Qed.

(** ** The logo singleton *)

Section LogoFacts.
Context `{IK : ImageKit} `{RT : Runtime}.

Lemma uploadImageToImageKit_run (f : FileInput) (fn folder : string)
    (tags : list string) (st st1 : State) (o : Outcome UploadResult) :
  uploadImageToImageKit f fn folder tags st = (o, st1) ->
  currentLogoUrl st1 = currentLogoUrl st /\
  currentLogoFileId st1 = currentLogoFileId st /\
  (forall r, o = Ret r -> exists params w w', upload params w = (Ret r, w')).
Proof.
  unfold uploadImageToImageKit, try_catch, bind at 1.
  set (sel := match f with IsBuffer b => _ | IsFile g => _ end).
  assert (Hsel : forall s, (exists v, sel s = (Ret v, s)) \/ (exists e, sel s = (Throw e, s))).
  { intros s. unfold sel. destruct f as [b | g].
    - left. eexists. reflexivity.
    - destruct (buffer g); [left; eexists; reflexivity|].
      destruct (path g) as [p|]; [| right; eexists; reflexivity].
      destruct (Js.truthy_str p); [| right; eexists; reflexivity].
      destruct (readFileSync p); [left | right]; eexists; reflexivity. }
  destruct (Hsel st) as [[v Hv] | [e He]].
  - rewrite Hv. unfold bind, call_upload, ret.
    destruct (upload _ (world st)) as [[r|e] w] eqn:Hup; simpl;
      intros H; injection H as <- <-; simpl; (split; [reflexivity|]);
      (split; [reflexivity|]); intros r' Hr; [| discriminate].
    injection Hr as <-. eauto.
  - rewrite He. unfold throw. intros H; injection H as <- <-.
    split; [reflexivity|]. split; [reflexivity | discriminate].
Qed.

Lemma performUpload_run (req : LogoRequest) (st st1 : State)
    (o : Outcome (option UploadResult)) :
  performUpload req st = (o, st1) ->
  currentLogoUrl st1 = currentLogoUrl st /\
  currentLogoFileId st1 = currentLogoFileId st /\
  (forall r, o = Ret (Some r) ->
             exists params w w', upload params w = (Ret r, w')).
Proof.
  unfold performUpload.
  assert (Hup : forall f fn folder tags,
             (r <- uploadImageToImageKit f fn folder tags ;; ret (Some r)) st
             = (o, st1) ->
             currentLogoUrl st1 = currentLogoUrl st /\
             currentLogoFileId st1 = currentLogoFileId st /\
             (forall r, o = Ret (Some r) ->
                        exists params w w', upload params w = (Ret r, w'))).
  { intros f fn folder tags. unfold bind, ret.
    destruct (uploadImageToImageKit f fn folder tags st) as [o' st'] eqn:Hrun.
    destruct (uploadImageToImageKit_run _ _ _ _ _ _ _ Hrun) as (Hu & Hf & Hr).
    destruct o' as [r'|e]; intros H; injection H as <- <-;
      (split; [exact Hu|]); (split; [exact Hf|]); intros r Heq;
      [injection Heq as <-; eauto | discriminate]. }
  destruct (Js.truthy (logoBase64 req)); [apply Hup|].
  destruct (file req) as [f|]; [apply Hup|].
  unfold ret. intros H; injection H as <- <-.
  split; [reflexivity|]. split; [reflexivity | discriminate].
Qed.

(** The old logo is dropped by at most one attempt, made for the tracked
    identifier; the block never throws and leaves the logo variables. *)
Lemma deleteOldLogo_run (st : State) :
  exists st' evs,
    deleteOldLogo st = (Ret tt, st') /\
    extends st st' evs /\
    (tracked st = false -> st' = st) /\
    (tracked st = true ->
     exists id, currentLogoFileId st = Some id /\
                attempts evs = [id] /\ deleteCalls evs <= 1).
Proof.
  unfold deleteOldLogo, bind at 1, get.
  destruct (tracked st) eqn:Ht.
  - destruct (deleteImageFromImageKit_shape (currentLogoFileId st) st)
      as (b & st' & evs & Hrun & Hext & _ & Hatt & Hdel & _).
    exists st', evs. unfold try_catch, bind, ret. rewrite Hrun.
    split; [reflexivity|]. split; [exact Hext|]. split; [discriminate|].
    intros _. unfold tracked in Ht. apply andb_true_iff in Ht as [Hid _].
    destruct (currentLogoFileId st) as [id|]; [| discriminate].
    simpl in Hid. rewrite Hid in Hatt. eauto.
  - exists st, []. split; [reflexivity|]. split; [apply extends_refl|].
    split; [reflexivity | discriminate].
Qed.

(** [uploadLogo] always answers; it either leaves the logo variables or
    sets both from the result of an upload that returned. *)
Lemma uploadLogo_cases (req : LogoRequest) (st : State) :
  exists resp st',
    uploadLogo req st = (Ret resp, st') /\
    ((currentLogoUrl st' = currentLogoUrl st /\
      currentLogoFileId st' = currentLogoFileId st) \/
     (exists r st1, performUpload req st = (Ret (Some r), st1) /\
                    currentLogoUrl st' = res_url r /\
                    currentLogoFileId st' = res_fileId r)).
Proof.
  unfold uploadLogo, try_catch at 1.
  destruct (negb (Js.present (file req)) && negb (Js.truthy (logoBase64 req))).
  { exists BadRequest, st. split; [reflexivity | left; auto]. }
  unfold try_catch, bind at 1.
  destruct (performUpload req st) as [[ores|e] st1] eqn:Hup.
  - destruct (performUpload_run _ _ _ _ Hup) as (Hu1 & Hf1 & _).
    unfold bind at 1.
    destruct (deleteOldLogo_run st1) as (st2 & evs & Hrun & (_ & Hu2 & Hf2) & _).
    rewrite Hrun. destruct ores as [r|].
    + eexists _, _. split; [reflexivity|]. right. exists r, st1.
      split; [reflexivity|]. simpl. auto.
    + eexists _, _. split; [reflexivity|]. left. simpl.
      rewrite Hu2, Hf2. auto.
  - destruct (performUpload_run _ _ _ _ Hup) as (Hu1 & Hf1 & _).
    eexists _, _. split; [reflexivity|]. left. simpl. auto.
Qed.

End LogoFacts.

Section LogoTheorems.
Context `{IK : ImageKit} `{RT : Runtime}.

(** C6. When the upload of an [uploadLogo] request returns a result, the
    request answers 200 with that result and the logo variables hold the
    new asset.  If no logo was tracked, nothing further happens: no delete
    attempt, no call on the host.  If a logo with an identifier was
    tracked, exactly one delete attempt is made, for that identifier, with
    at most one [deleteFile] call; the variables are set to the new asset
    whatever that attempt gives. *)
Theorem uploadLogo_replaces_singleton (req : LogoRequest) (st st1 : State)
    (r : UploadResult) :
  performUpload req st = (Ret (Some r), st1) ->
  exists st',
    uploadLogo req st = (Ret (LogoUploaded r), st') /\
    currentLogoUrl st' = res_url r /\
    currentLogoFileId st' = res_fileId r /\
    (tracked st = false -> trace st' = trace st1 /\ world st' = world st1) /\
    (tracked st = true ->
     exists id evs,
       currentLogoFileId st = Some id /\
       trace st' = (trace st1 ++ evs)%list /\
       attempts evs = [id] /\
       deleteCalls evs <= 1).
Proof.
  intros Hup.
  destruct (performUpload_run _ _ _ _ Hup) as (Hu1 & Hf1 & _).
  assert (Htr : tracked st1 = tracked st) by (unfold tracked; now rewrite Hu1, Hf1).
  assert (Hvalid : negb (Js.present (file req)) && negb (Js.truthy (logoBase64 req))
                   = false).
  { unfold performUpload in Hup.
    destruct (Js.truthy (logoBase64 req)); [apply andb_false_r|].
    destruct (file req); [reflexivity | discriminate]. }
  unfold uploadLogo, try_catch at 1. rewrite Hvalid.
  unfold try_catch, bind at 1. rewrite Hup. unfold bind at 1.
  destruct (deleteOldLogo_run st1) as (st2 & evs & Hrun & (Ht & _ & _) & Hno & Hyes).
  rewrite Hrun. eexists. split; [reflexivity|]. simpl.
  split; [reflexivity|]. split; [reflexivity|]. rewrite Htr in Hno, Hyes. split.
  - intros Hf. rewrite (Hno Hf). auto.
  - intros Hf. destruct (Hyes Hf) as (id & Hid & Hatt & Hdel).
    exists id, evs. rewrite <- Hf1. auto.
Qed.

(** [deleteLogo] in one equation: the outcome of the deletion is not
    looked at. *)
Lemma deleteLogo_run (st : State) :
  deleteLogo st =
  if tracked st then
    let st1 := snd (deleteImageFromImageKit (currentLogoFileId st) st) in
    (Ret (LogoDeleted (currentLogoUrl st)),
     mkState (world st1) (trace st1) None None)
  else (Ret NothingToDelete, st).
Proof.
  assert (Hcond : negb (Js.truthy (currentLogoFileId st)) ||
                  negb (Js.truthy (currentLogoUrl st)) = negb (tracked st)).
  { unfold tracked. now rewrite negb_andb. }
  unfold deleteLogo, try_catch at 1, bind at 1, get. rewrite Hcond.
  destruct (tracked st) eqn:Ht; cbn [negb]; [| reflexivity].
  destruct (deleteImageFromImageKit_shape (currentLogoFileId st) st)
    as (b & st1 & evs & Hrun & (Htrace & Hu & Hf) & _).
  unfold try_catch, bind at 1. rewrite Hrun. simpl. now rewrite Hu.
Qed.

(** C8. [deleteLogo] never answers with the 500 of a remote deletion
    failure.  Whenever a logo is tracked it answers 200 with the tracked
    URL and clears both variables, whatever the host did with the
    deletion; otherwise it answers 404 and changes nothing. *)
Theorem deleteLogo_never_reports_remote_failure (st : State) :
  (forall details, fst (deleteLogo st) <> Ret (DeleteFailed details)) /\
  (tracked st = true ->
   exists st' evs,
     deleteLogo st = (Ret (LogoDeleted (currentLogoUrl st)), st') /\
     status (LogoDeleted (currentLogoUrl st)) = 200 /\
     currentLogoUrl st' = None /\ currentLogoFileId st' = None /\
     trace st' = (trace st ++ evs)%list) /\
  (tracked st = false -> deleteLogo st = (Ret NothingToDelete, st)).
Proof.
  rewrite deleteLogo_run. destruct (tracked st) eqn:Ht.
  - destruct (deleteImageFromImageKit_shape (currentLogoFileId st) st)
      as (b & st1 & evs & Hrun & (Htrace & Hu & Hf) & _).
    rewrite Hrun. simpl.
    split; [discriminate|]. split; [| discriminate].
    intros _. eexists _, evs. split; [reflexivity|]. simpl. auto.
  - simpl. split; [discriminate|]. split; [discriminate | reflexivity].
Qed.

Lemma getLogo_run (st : State) :
  exists resp, getLogo st = (Ret resp, st).
Proof.
  unfold getLogo, try_catch, bind, get.
  destruct (negb (Js.truthy (currentLogoUrl st))); eexists; reflexivity.
Qed.

(** C10. Provided every upload that returns carries both a URL and an
    identifier, each handler ([uploadLogo], [getLogo], [deleteLogo]) run to
    completion answers and keeps the two logo variables both set or both
    unset; so they are after any sequence of requests served from
    start-up. *)
Theorem logo_variables_paired :
  uploadsComplete ->
  (forall (r : Request) (st : State),
      paired st ->
      exists resp, fst (handle r st) = Ret resp /\ paired (snd (handle r st))) /\
  (forall (requests : list Request) (w : World),
      paired (serve requests (initial w))).
Proof.
  intros Hcomplete.
  assert (Hstep : forall (r : Request) (st : State),
             paired st ->
             exists resp, fst (handle r st) = Ret resp /\
                          paired (snd (handle r st))).
  { intros [req | |] st Hp; simpl.
    - destruct (uploadLogo_cases req st) as (resp & st' & Hrun & Hcase).
      rewrite Hrun. exists resp. split; [reflexivity|]. simpl.
      destruct Hcase as [(Hu & Hf) | (r & st1 & Hup & Hu & Hf)].
      + unfold paired. rewrite Hu, Hf. exact Hp.
      + destruct (performUpload_run _ _ _ _ Hup) as (_ & _ & Horigin).
        destruct (Horigin r eq_refl) as (params & w & w' & Hcall).
        destruct (Hcomplete _ _ _ _ Hcall) as (H1 & H2).
        right. rewrite Hu, Hf. auto.
    - destruct (getLogo_run st) as (resp & Hrun). rewrite Hrun.
      exists resp. auto.
    - rewrite deleteLogo_run. destruct (tracked st).
      + eexists. split; [reflexivity|]. left. simpl. auto.
      + eexists. split; [reflexivity | exact Hp]. }
  split; [exact Hstep|].
  intros requests w. unfold serve.
  assert (Hinit : paired (initial w)) by (left; auto).
  revert Hinit. generalize (initial w).
  induction requests as [|r rest IH]; intros st Hp; simpl; [exact Hp|].
  apply IH. destruct (Hstep r st Hp) as (_ & _ & Hp'). exact Hp'.
Qed.

End LogoTheorems.

Lemma sample_uploadsComplete : @uploadsComplete Sample.kit.
Proof.
  intros params w r w'. simpl. destruct (Sample.uploadable w).
  - intros H; injection H as <- _. simpl. split; discriminate.
  - discriminate.
Defined.

(** A logo is replaced on a host that refuses every deletion: one attempt
    for the old identifier, and the new asset is tracked all the same. *)
Lemma uploadLogo_replaces_singleton_sample :
  exists st1 r st',
    @performUpload Sample.kit Sample.runtime Sample.jsonUpload
       (Sample.withLogo Sample.stubborn) = (Ret (Some r), st1) /\
    @uploadLogo Sample.kit Sample.runtime Sample.jsonUpload
       (Sample.withLogo Sample.stubborn) = (Ret (LogoUploaded r), st') /\
    currentLogoFileId st' = Some "id-app-logo.png" /\
    trace st' = (trace st1 ++
                 [Attempt "id-app-logo.png";
                  DeleteFile "id-app-logo.png" "id-app-logo.png" false])%list.
Proof.
  eexists _, _.
  destruct (@uploadLogo_replaces_singleton Sample.kit Sample.runtime
              Sample.jsonUpload (Sample.withLogo Sample.stubborn) _ _ eq_refl)
    as (st' & Hrun & _ & Hf & _ & _).
  exists st'. split; [reflexivity|]. split; [exact Hrun|].
  split; [exact Hf|].
  assert (Hsnd : st' = snd (@uploadLogo Sample.kit Sample.runtime
                    Sample.jsonUpload (Sample.withLogo Sample.stubborn)))
    by (rewrite Hrun; reflexivity).
  rewrite Hsnd. reflexivity.
Defined.

(** The tracked logo is "deleted" with a 200 although the host refused the
    deletion. *)
Lemma deleteLogo_never_reports_remote_failure_sample :
  @tracked Sample.kit (Sample.withLogo Sample.stubborn) = true /\
  (exists st' evs,
     @deleteLogo Sample.kit Sample.runtime (Sample.withLogo Sample.stubborn)
       = (Ret (LogoDeleted
                 (Some "https://ik.example.io/acct/app-assets/app-logo.png")), st') /\
     status (LogoDeleted
               (Some "https://ik.example.io/acct/app-assets/app-logo.png")) = 200 /\
     currentLogoUrl st' = None /\ currentLogoFileId st' = None /\
     trace st' = ([] ++ evs)%list) /\
  trace (snd (@deleteLogo Sample.kit Sample.runtime
                (Sample.withLogo Sample.stubborn)))
    = [Attempt "id-app-logo.png";
       DeleteFile "id-app-logo.png" "id-app-logo.png" false].
Proof.
  split; [reflexivity|]. split; [| reflexivity].
  apply (proj1 (proj2 (@deleteLogo_never_reports_remote_failure
                         Sample.kit Sample.runtime
                         (Sample.withLogo Sample.stubborn)))).
  reflexivity.
Defined.

(** Upload, read, upload again, delete, read: the variables stay paired. *)
Lemma logo_variables_paired_sample :
  @uploadsComplete Sample.kit /\
  @paired Sample.kit
    (@serve Sample.kit Sample.runtime
       [PostUpload Sample.jsonUpload; GetLogo; PostUpload Sample.jsonUpload;
        DeleteLogo; GetLogo]
       (Sample.start Sample.stubborn)).
Proof.
  split; [exact sample_uploadsComplete|].
  apply (proj2 (@logo_variables_paired Sample.kit Sample.runtime
                  sample_uploadsComplete)).
Defined.

(** * Further properties of the code *)

(** ** Paths: splitting, joining and extraction *)

Lemma append_empty_r (s : string) : s ++ "" = s.
Proof. induction s as [|c s IH]; simpl; [reflexivity | now rewrite IH]. Qed.

Lemma append_assoc (a b c : string) : (a ++ b) ++ c = a ++ b ++ c.
Proof. induction a as [|x a IH]; simpl; [reflexivity | now rewrite IH]. Qed.

Lemma split_aux_cur (sep : ascii) (s cur : string) :
  Js.split_aux sep s cur =
  match Js.split_aux sep s "" with
  | [] => [cur]
  | h :: t => (cur ++ h) :: t
  end.
Proof.
  revert cur. induction s as [|c s IH]; intros cur; simpl.
  - now rewrite append_empty_r.
  - destruct (Ascii.eqb c sep).
    + now rewrite append_empty_r.
    + rewrite IH. rewrite (IH (String c "")).
      destruct (Js.split_aux sep s "") as [|h t]; [reflexivity|].
      now rewrite append_assoc.
Qed.

Lemma split_aux_nonempty (sep : ascii) (s cur : string) :
  Js.split_aux sep s cur <> [].
Proof.
  revert cur. induction s as [|c s IH]; intros cur; simpl; [discriminate|].
  destruct (Ascii.eqb c sep); [discriminate | apply IH].
Qed.

Lemma split_noSlash_prefix (p s cur : string) :
  noSlash p = true ->
  Js.split_aux "/" (p ++ s) cur = Js.split_aux "/" s (cur ++ p).
Proof.
  revert cur. induction p as [|c p IH]; intros cur Hp; simpl.
  - now rewrite append_empty_r.
  - simpl in Hp. apply andb_true_iff in Hp as [Hc Hp].
    apply negb_true_iff in Hc. rewrite Hc, (IH _ Hp).
    now rewrite append_assoc.
Qed.

Lemma noSlash_app (a b : string) :
  noSlash (a ++ b) = noSlash a && noSlash b.
Proof.
  induction a as [|c a IH]; simpl; [reflexivity|].
  now rewrite IH, andb_assoc.
Qed.

Lemma split_aux_noSlash (s cur : string) :
  noSlash cur = true ->
  Forall (fun p => noSlash p = true) (Js.split_aux "/" s cur).
Proof.
  revert cur. induction s as [|c s IH]; intros cur Hcur; simpl.
  - constructor; [exact Hcur | constructor].
  - destruct (Ascii.eqb c "/") eqn:Hc.
    + constructor; [exact Hcur | apply IH; reflexivity].
    + apply IH. rewrite noSlash_app, Hcur. simpl. now rewrite Hc.
Qed.

(** Splitting what was joined gives the parts back. *)
Lemma split_join (parts : list string) :
  parts <> [] ->
  Forall (fun p => noSlash p = true) parts ->
  Js.split_slash (Js.join_slash parts) = parts.
Proof.
  unfold Js.split_slash, Js.split.
  induction parts as [|p rest IH]; intros Hne Hall; [congruence|].
  inversion Hall as [|? ? Hp Hrest]; subst.
  destruct rest as [|q rest].
  - change (Js.join_slash [p]) with p.
    rewrite <- (append_empty_r p) at 1.
    rewrite (split_noSlash_prefix _ _ _ Hp). reflexivity.
  - change (Js.join_slash (p :: q :: rest))
      with (p ++ String "/" (Js.join_slash (q :: rest))).
    rewrite (split_noSlash_prefix _ _ _ Hp). simpl.
    f_equal. apply IH; [discriminate | exact Hrest].
Qed.

Lemma nonempty_segments (s : string) :
  Forall (fun p => isSegment p = true) (Js.nonempty (Js.split_slash s)).
Proof.
  unfold Js.nonempty. apply Forall_forall. intros p Hp.
  apply filter_In in Hp as [Hin Ht].
  unfold isSegment. rewrite Ht. simpl.
  pose proof (split_aux_noSlash s "" eq_refl) as Hall.
  rewrite Forall_forall in Hall. now apply Hall.
Qed.

Lemma nonempty_of_segments (parts : list string) :
  Forall (fun p => isSegment p = true) parts -> Js.nonempty parts = parts.
Proof.
  unfold Js.nonempty. induction 1 as [|p rest Hp _ IH]; simpl; [reflexivity|].
  unfold isSegment in Hp. apply andb_true_iff in Hp as [Hp _].
  now rewrite Hp, IH.
Qed.

(** The segments of a path made of a slash and joined segments. *)
Lemma segments_of_joined (parts : list string) :
  parts <> [] ->
  Forall (fun p => isSegment p = true) parts ->
  Js.nonempty (Js.split_slash ("/" ++ Js.join_slash parts)) = parts.
Proof.
  intros Hne Hall.
  assert (Hns : Forall (fun p => noSlash p = true) parts).
  { eapply Forall_impl; [| exact Hall]. intros p Hp.
    unfold isSegment in Hp. now apply andb_true_iff in Hp as [_ Hp]. }
  change (Js.split_slash ("/" ++ Js.join_slash parts))
    with ("" :: Js.split_slash (Js.join_slash parts)).
  rewrite (split_join _ Hne Hns). simpl. now apply nonempty_of_segments.
Qed.

Lemma join_snoc (front : list string) (leaf : string) :
  front <> [] ->
  Js.join_slash (front ++ [leaf]) = Js.join_slash front ++ "/" ++ leaf.
Proof.
  induction front as [|p rest IH]; intros Hne; [congruence|].
  destruct rest as [|q rest].
  - reflexivity.
  - change (Js.join_slash ((p :: q :: rest) ++ [leaf]))
      with (p ++ "/" ++ Js.join_slash ((q :: rest) ++ [leaf])).
    rewrite IH by discriminate. simpl.
    now rewrite !append_assoc.
Qed.

Lemma join_segments_truthy (parts : list string) :
  parts <> [] ->
  Forall (fun p => isSegment p = true) parts ->
  Js.join_slash parts <> "".
Proof.
  intros Hne Hall. destruct parts as [|p rest]; [congruence|].
  inversion Hall as [|? ? Hp _]; subst.
  unfold isSegment in Hp. apply andb_true_iff in Hp as [Hp _].
  destruct p as [|c p]; [discriminate|].
  destruct rest; simpl; discriminate.
Qed.

Lemma last_opt_snoc (front : list string) (leaf : string) :
  Js.last_opt (front ++ [leaf]) = Some leaf.
Proof. unfold Js.last_opt. now rewrite rev_app_distr. Qed.

Section PathFacts.
Context `{RT : Runtime}.

Lemma extract_from_pathname (u pathname fp : string) :
  URL_pathname u = Some pathname ->
  extractImageKitFilePath (Some u) = Some fp ->
  Js.nonempty (Js.split_slash pathname) <> [] /\
  fp = "/" ++ Js.join_slash (Js.nonempty (Js.split_slash pathname)).
Proof.
  intros Hurl. unfold extractImageKitFilePath.
  destruct (Js.truthy_str u); cbn [negb]; [| discriminate].
  rewrite Hurl.
  destruct (Js.nonempty (Js.split_slash pathname)) as [|p rest] eqn:Hparts;
    simpl; [discriminate|].
  intros H; injection H as <-. split; [discriminate | reflexivity].
Qed.

(** X1. For a URL the parser accepts, the extracted path has exactly the
    non-empty segments of the URL's pathname, and the file name and folder
    computed from it put the path together again: it is
    [folder ++ "/" ++ name], or ["/" ++ name] when the folder is the root.
    The name is a single non-empty segment. *)
Theorem extracted_path_decomposes (u pathname fp : string) :
  URL_pathname u = Some pathname ->
  extractImageKitFilePath (Some u) = Some fp ->
  Js.nonempty (Js.split_slash fp) = Js.nonempty (Js.split_slash pathname) /\
  exists name,
    fileNameOf fp = Some name /\ isSegment name = true /\
    ((folderPathOf fp = "/" /\ fp = "/" ++ name) \/
     (folderPathOf fp <> "/" /\ fp = folderPathOf fp ++ "/" ++ name)).
Proof.
  intros Hurl Hfp.
  destruct (extract_from_pathname _ _ _ Hurl Hfp) as (Hne & ->).
  pose proof (nonempty_segments pathname) as Hall.
  set (parts := Js.nonempty (Js.split_slash pathname)) in *.
  pose proof (segments_of_joined parts Hne Hall) as Hsegs.
  split; [exact Hsegs|].
  destruct (exists_last Hne) as (front & leaf & Hparts).
  assert (Hleaf : isSegment leaf = true).
  { rewrite Forall_forall in Hall. apply Hall. rewrite Hparts.
    apply in_or_app. right. now left. }
  exists leaf. unfold fileNameOf, folderPathOf. rewrite Hsegs.
  split; [rewrite Hparts; apply last_opt_snoc|]. split; [exact Hleaf|].
  rewrite Hparts. unfold Js.init. rewrite removelast_last, length_app. simpl.
  destruct front as [|p front'].
  - left. split; reflexivity.
  - right.
    replace (1 <? List.length (p :: front') + 1)%nat with true
      by (symmetry; apply Nat.ltb_lt; simpl; lia).
    assert (Hfront : Forall (fun q => isSegment q = true) (p :: front')).
    { rewrite Forall_forall in Hall |- *. intros q Hq. apply Hall.
      rewrite Hparts. apply in_or_app. now left. }
    split.
    + intros Heq. injection Heq as Heq.
      apply (join_segments_truthy (p :: front')); [discriminate | exact Hfront |].
      exact Heq.
    + rewrite join_snoc by discriminate. reflexivity.
Qed.

(** X2. Extraction is idempotent on a runtime whose URL parser refuses a
    string that starts with a slash (a relative reference): a path that
    extraction returned is extracted to itself. *)
Theorem extraction_is_idempotent (x : option string) (fp : string) :
  (forall s, Js.startsWith s "/" = true -> URL_pathname s = None) ->
  extractImageKitFilePath x = Some fp ->
  extractImageKitFilePath (Some fp) = Some fp.
Proof.
  intros Hrel Hfp.
  assert (Hslash : Js.startsWith fp "/" = true).
  { revert Hfp. unfold extractImageKitFilePath.
    destruct x as [u|]; [| discriminate].
    destruct (Js.truthy_str u); cbn [negb]; [| discriminate].
    destruct (URL_pathname u).
    - destruct (0 <? _)%nat; [| discriminate].
      intros H; injection H as <-. reflexivity.
    - destruct (Js.startsWith u "/") eqn:Hs; [| discriminate].
      intros H; injection H as <-. exact Hs. }
  unfold extractImageKitFilePath.
  rewrite (extract_truthy _ _ Hfp). cbn [negb].
  now rewrite (Hrel _ Hslash), Hslash.
Qed.

End PathFacts.

Lemma sample_refuses_relative (s : string) :
  Js.startsWith s "/" = true -> Sample.pathname s = None.
Proof.
  intros H. apply startsWith_spec in H as [r ->]. reflexivity.
Defined.

Lemma extracted_path_decomposes_sample :
  @URL_pathname Sample.runtime Sample.photo = Some "/acct/products/a.jpg" /\
  @extractImageKitFilePath Sample.runtime (Some Sample.photo)
    = Some "/acct/products/a.jpg" /\
  exists name,
    fileNameOf "/acct/products/a.jpg" = Some name /\ isSegment name = true /\
    ((folderPathOf "/acct/products/a.jpg" = "/" /\
      "/acct/products/a.jpg" = "/" ++ name) \/
     (folderPathOf "/acct/products/a.jpg" <> "/" /\
      "/acct/products/a.jpg"
        = folderPathOf "/acct/products/a.jpg" ++ "/" ++ name)).
Proof.
  split; [reflexivity|]. split; [reflexivity|].
  exact (proj2 (@extracted_path_decomposes Sample.runtime Sample.photo
                  "/acct/products/a.jpg" "/acct/products/a.jpg"
                  eq_refl eq_refl)).
Defined.

Lemma extraction_is_idempotent_sample :
  @extractImageKitFilePath Sample.runtime (Some Sample.photo)
    = Some "/acct/products/a.jpg" /\
  @extractImageKitFilePath Sample.runtime (Some "/acct/products/a.jpg")
    = Some "/acct/products/a.jpg".
Proof.
  split; [reflexivity|].
  exact (@extraction_is_idempotent Sample.runtime (Some Sample.photo)
           "/acct/products/a.jpg" sample_refuses_relative eq_refl).
Defined.

(** ** Identifier resolution: calls made, soundness, the fallback *)

Lemma findWithId_In (test : FileRecord -> bool) (files : list FileRecord)
    (id : string) :
  findWithId test files = Some id ->
  exists r, In r files /\ test r = true /\ rec_fileId r = Some id.
Proof.
  unfold findWithId. destruct (find test files) as [m|] eqn:Hm; [| discriminate].
  destruct (Js.truthy (rec_fileId m)); [| discriminate].
  intros H. apply find_some in Hm as [Hin Ht]. eauto.
Qed.

Lemma find_head_filter (test : FileRecord -> bool) (files : list FileRecord) :
  find test files = match filter test files with m :: _ => Some m | [] => None end.
Proof.
  induction files as [|x xs IH]; simpl; [reflexivity|].
  destruct (test x); [reflexivity | exact IH].
Qed.

Lemma matchInAll_wins (u fp : string) (fn : option string)
    (files : list FileRecord) (id : string) :
  matchInAll u fp fn files = Some id <-> wins (anyTest u fp fn) files id.
Proof.
  unfold matchInAll, wins. split.
  - destruct (filter (anyTest u fp fn) files) as [|m ms] eqn:Hf; [discriminate|].
    destruct (Js.truthy (rec_fileId m)) eqn:Ht; [| discriminate].
    intros Hid. exists m. split; [| split; [exact Hid|]].
    + apply find_firstSat. rewrite find_head_filter, Hf. reflexivity.
    + rewrite Hid in Ht. now apply truthy_str_spec.
  - intros (r & Hr & Hid & Hne). apply find_firstSat in Hr.
    rewrite find_head_filter in Hr.
    destruct (filter (anyTest u fp fn) files) as [|m ms]; [discriminate|].
    injection Hr as ->. rewrite Hid. simpl.
    apply truthy_str_spec in Hne. now rewrite Hne.
Qed.

Section ResolverMore.
Context `{IK : ImageKit} `{RT : Runtime}.

(** X3. Resolution makes no call at all when no path can be extracted from
    its argument, and answers not-found.  Otherwise it lists the folder of
    the path first; it stops there when the folder gave an identifier, and
    else lists once more, globally.  It makes no other call. *)
Theorem resolution_lists_at_most_twice (x : option string) (st : State) :
  exists r st',
    getImageKitFileId x st = (Ret r, st') /\
    match extractImageKitFilePath x with
    | None => r = None /\ st' = st
    | Some fp =>
        (exists id, r = Some id /\
                    world st' = snd (listFiles (Some (folderPathOf fp)) (world st)) /\
                    extends st st' [ListFiles (Some (folderPathOf fp))]) \/
        (fromFolder (match x with Some u => u | None => "" end) fp st = None /\
         extends st st' [ListFiles (Some (folderPathOf fp)); ListFiles None])
    end.
Proof.
  destruct x as [u|]; [| exists None, st; simpl; auto].
  destruct (Js.truthy_str u) eqn:Hu.
  2:{ exists None, st. unfold getImageKitFileId, try_catch, extractImageKitFilePath.
      rewrite Hu. cbn [negb]. repeat split; reflexivity. }
  destruct (extractImageKitFilePath (Some u)) as [fp|] eqn:Hfp.
  2:{ exists None, st. unfold getImageKitFileId, try_catch. rewrite Hu.
      cbn [negb]. rewrite Hfp. repeat split; reflexivity. }
  rewrite (getImageKitFileId_run u fp st Hu Hfp).
  destruct (fromFolder u fp st) as [id|] eqn:E1.
  - eexists _, _. split; [reflexivity|]. left. exists id.
    split; [reflexivity|]. split; [reflexivity | apply extends_afterList].
  - eexists _, _. split; [reflexivity|]. right. split; [reflexivity|].
    apply (extends_trans st (afterList (Some (folderPathOf fp)) st) _
             [ListFiles (Some (folderPathOf fp))] [ListFiles None]);
      apply extends_afterList.
Qed.

(** X4. Resolution is sound: an identifier it returns is non-empty and is
    the identifier of a record of a listing the host returned (the folder
    listing or the global one), and that record passed one of the tests. *)
Theorem resolved_identifier_is_listed (x : option string) (st st' : State)
    (id : string) :
  getImageKitFileId x st = (Ret (Some id), st') ->
  id <> "" /\
  exists u fp resp r,
    x = Some u /\ extractImageKitFilePath x = Some fp /\
    (listed (Some (folderPathOf fp)) st = Some resp \/
     listed None (afterList (Some (folderPathOf fp)) st) = Some resp) /\
    In r (listedFiles resp) /\
    rec_fileId r = Some id /\
    (pathTest fp r = true \/ urlTest u r = true \/
     nameTest (fileNameOf fp) r = true \/
     anyTest u fp (fileNameOf fp) r = true).
Proof.
  intros Hrun.
  destruct (getImageKitFileId_total x st) as (r0 & st0 & evs & Hrun0 & _ & _ & _ & Hid).
  rewrite Hrun in Hrun0. injection Hrun0 as <- <-.
  split; [apply truthy_str_spec; now apply Hid|].
  destruct x as [u|]; [| discriminate].
  destruct (Js.truthy_str u) eqn:Hu.
  2:{ unfold getImageKitFileId, try_catch in Hrun. rewrite Hu in Hrun. discriminate. }
  destruct (extractImageKitFilePath (Some u)) as [fp|] eqn:Hfp.
  2:{ unfold getImageKitFileId, try_catch in Hrun. rewrite Hu in Hrun.
      cbn [negb] in Hrun. rewrite Hfp in Hrun. discriminate. }
  rewrite (getImageKitFileId_run u fp st Hu Hfp) in Hrun.
  exists u, fp.
  destruct (fromFolder u fp st) as [id1|] eqn:E1.
  - injection Hrun as -> _. unfold fromFolder in E1.
    destruct (listed (Some (folderPathOf fp)) st) as [resp|] eqn:Hl; [| discriminate].
    unfold matchInFolder in E1.
    destruct (0 <? _)%nat; [| discriminate].
    destruct (findWithId (pathTest fp) (listedFiles resp)) as [i|] eqn:Ha.
    { injection E1 as ->. apply findWithId_In in Ha as (r & Hin & Ht & Hr).
      exists resp, r. repeat split; auto. }
    destruct (findWithId (urlTest u) (listedFiles resp)) as [i|] eqn:Hb.
    { injection E1 as ->. apply findWithId_In in Hb as (r & Hin & Ht & Hr).
      exists resp, r. repeat split; auto. }
    apply findWithId_In in E1 as (r & Hin & Ht & Hr).
    exists resp, r. repeat split; auto.
  - cbv zeta in Hrun. injection Hrun as E2 _. unfold fromAll in E2.
    destruct (listed None _) as [resp|] eqn:Hl; [| discriminate].
    apply matchInAll_wins in E2 as (r & Hr & Hrid & _).
    destruct Hr as (before & after & Hfiles & _ & Ht).
    exists resp, r. split; [reflexivity|]. split; [reflexivity|].
    split; [now right|]. split; [rewrite Hfiles; apply in_or_app; right; now left|].
    split; [exact Hrid | auto].
Qed.

(** X5. When the folder gave no identifier and the global listing
    returned, the result is exactly the identifier of the first record, in
    list order, that passes the fallback's filter: an identifier is
    returned if and only if that first record carries one. *)
Theorem global_fallback_takes_first_match (u fp : string) (resp : ListResponse)
    (st : State) :
  u <> "" ->
  extractImageKitFilePath (Some u) = Some fp ->
  fromFolder u fp st = None ->
  listed None (afterList (Some (folderPathOf fp)) st) = Some resp ->
  forall id,
    fst (getImageKitFileId (Some u) st) = Ret (Some id) <->
    wins (anyTest u fp (fileNameOf fp)) (listedFiles resp) id.
Proof.
  intros Hu Hfp Hfolder Hall id. apply truthy_str_spec in Hu.
  rewrite (getImageKitFileId_run u fp st Hu Hfp), Hfolder. cbv zeta.
  unfold fromAll. rewrite Hall. simpl. rewrite <- matchInAll_wins.
  split; [intros H; now injection H | intros ->; reflexivity].
Qed.

End ResolverMore.

(** X6. When the file name is known, the fallback's filter accepts every
    record that passes the stored path test or the name test of the folder
    search, and every record that passes the URL test through its [url]
    property (the fallback does not read [webkitRelativePath]). *)
Theorem fallback_filter_covers_folder_tests (u fp fn : string)
    (r : FileRecord) :
  pathTest fp r = true \/ nameTest (Some fn) r = true \/
  (Js.truthy (rec_url r) = true /\ urlTest u r = true) ->
  anyTest u fp (Some fn) r = true.
Proof.
  assert (Hor : forall v s, Js.eq_str v s = true ->
                            Js.eq_str (Js.or v (Some "")) s = true).
  { intros v s H. unfold Js.or. destruct (Js.truthy v) eqn:Ht; [exact H|].
    destruct v as [t|]; [| discriminate]. simpl in *.
    destruct t; [exact H | discriminate]. }
  assert (Hopt : forall v s, Js.eq_opt v (Some s) = true ->
                             Js.eq_opt (Js.or v (Some "")) (Some s) = true).
  { intros v s H. unfold Js.or. destruct (Js.truthy v) eqn:Ht; [exact H|].
    destruct v as [t|]; [| discriminate].
    destruct t; [exact H | discriminate]. }
  assert (Htr : forall v, Js.truthy v = true -> Js.or v (Some "") = v).
  { intros v H. unfold Js.or. now rewrite H. }
  unfold anyTest. intros [Hp | [Hn | [Hurl Hu]]].
  - unfold pathTest in Hp. now rewrite (Hor _ _ Hp).
  - unfold nameTest in Hn. apply orb_true_iff in Hn as [Hn | Hn].
    + rewrite (Hopt _ _ Hn). now rewrite !orb_true_r.
    + apply andb_true_iff in Hn as [Ht He].
      assert (Hfp : Js.or (Js.or (Js.or (rec_filePath r) (rec_path r)) (rec_file r))
                          (Some "")
                    = Js.or (rec_filePath r) (rec_path r)).
      { rewrite Htr; [| unfold Js.or at 1; now rewrite Ht].
        unfold Js.or at 1. now rewrite Ht. }
      rewrite Hfp, Ht, He. simpl. now rewrite !orb_true_r.
  - unfold urlTest in Hu.
    assert (Hsame : Js.or (rec_url r) (rec_webkitRelativePath r) = rec_url r)
      by (unfold Js.or; now rewrite Hurl).
    rewrite Hsame in Hu. rewrite (Htr _ Hurl).
    apply orb_true_iff in Hu as [Hu | Hu]; rewrite Hu; now rewrite !orb_true_r.
Qed.

Lemma resolved_identifier_is_listed_sample :
  "id-a" <> "" /\
  exists u fp resp r,
    Some Sample.photo = Some u /\
    @extractImageKitFilePath Sample.runtime (Some Sample.photo) = Some fp /\
    (@listed Sample.kit (Some (folderPathOf fp)) (Sample.start Sample.stocked)
       = Some resp \/
     @listed Sample.kit None
        (@afterList Sample.kit (Some (folderPathOf fp))
           (Sample.start Sample.stocked)) = Some resp) /\
    In r (listedFiles resp) /\
    rec_fileId r = Some "id-a" /\
    (pathTest fp r = true \/ urlTest u r = true \/
     nameTest (fileNameOf fp) r = true \/
     anyTest u fp (fileNameOf fp) r = true).
Proof.
  exact (@resolved_identifier_is_listed Sample.kit Sample.runtime
           (Some Sample.photo) (Sample.start Sample.stocked) _ "id-a" eq_refl).
Defined.

Lemma global_fallback_takes_first_match_sample :
  fst (@getImageKitFileId Sample.kit Sample.runtime (Some Sample.photo)
         (Sample.start Sample.misfiled)) = Ret (Some "id-copy") <->
  wins (anyTest Sample.photo "/acct/products/a.jpg"
          (fileNameOf "/acct/products/a.jpg"))
       [Sample.archived; Sample.exact] "id-copy".
Proof.
  apply (@global_fallback_takes_first_match Sample.kit Sample.runtime
           Sample.photo "/acct/products/a.jpg"
           (RespArray [Sample.archived; Sample.exact])
           (Sample.start Sample.misfiled));
    [discriminate | reflexivity | reflexivity | reflexivity].
Defined.

Lemma fallback_filter_covers_folder_tests_sample :
  pathTest "/acct/products/a.jpg" Sample.exact = true /\
  anyTest Sample.photo "/acct/products/a.jpg" (Some "a.jpg") Sample.exact = true.
Proof.
  split; [reflexivity|].
  apply (fallback_filter_covers_folder_tests Sample.photo
           "/acct/products/a.jpg" "a.jpg" Sample.exact).
  left. reflexivity.
Defined.

(** ** Deletion of a hosted URL *)

Section HostedDeletion.
Context `{IK : ImageKit} `{RT : Runtime}.


End HostedDeletion.


(** ** Uploading *)

Section UploadFacts.
Context `{IK : ImageKit} `{RT : Runtime}.

(** [uploadImageToImageKit] either settles on a buffer and a name and calls
    [upload] once with them, or fails before any call. *)
Lemma uploadImageToImageKit_call (f : FileInput) (fn folder : string)
    (tags : list string) (st : State) :
  let run := uploadImageToImageKit f fn folder tags st in
  (exists b name,
      let params := mkUploadParams b name folder tags in
      ((f = IsBuffer b /\ name = fn) \/
       (exists g, f = IsFile g /\ name = Js.or_str (originalname g) fn /\
                  (buffer g = Some b \/
                   (buffer g = None /\
                    exists p, path g = Some p /\ Js.truthy_str p = true /\
                              readFileSync p = Some b)))) /\
      snd run = with_world (snd (upload params (world st)))
                           (log (Upload params) st) /\
      fst run = match fst (upload params (world st)) with
                | Ret r => Ret r
                | Throw e =>
                    Throw (mkError ("Failed to upload image to ImageKit: "
                                    ++ message e))
                end) \/
  (snd run = st /\
   exists m, fst run = Throw (mkError ("Failed to upload image to ImageKit: " ++ m)) /\
             exists g, f = IsFile g /\ buffer g = None).
Proof.
  assert (Hcall : forall b name,
             (sel <- ret (b, name) ;;
              result <- call_upload (mkUploadParams (fst sel) (snd sel) folder tags) ;;
              ret result) st
             = (fst (upload (mkUploadParams b name folder tags) (world st)),
                with_world (snd (upload (mkUploadParams b name folder tags) (world st)))
                           (log (Upload (mkUploadParams b name folder tags)) st))).
  { intros b name. unfold bind, ret, call_upload. simpl.
    destruct (upload _ (world st)) as [[r|e] w]; reflexivity. }
  assert (Hok : forall b name,
             try_catch
               (sel <- ret (b, name) ;;
                result <- call_upload (mkUploadParams (fst sel) (snd sel) folder tags) ;;
                ret result)
               (fun error => throw (mkError ("Failed to upload image to ImageKit: "
                                             ++ message error))) st
             = (match fst (upload (mkUploadParams b name folder tags) (world st)) with
                | Ret r => Ret r
                | Throw e => Throw (mkError ("Failed to upload image to ImageKit: "
                                             ++ message e))
                end,
                with_world (snd (upload (mkUploadParams b name folder tags) (world st)))
                           (log (Upload (mkUploadParams b name folder tags)) st))).
  { intros b name. unfold try_catch. rewrite Hcall.
    destruct (fst (upload _ (world st))); reflexivity. }
  cbv zeta. unfold uploadImageToImageKit. destruct f as [b | g].
  - left. exists b, fn. rewrite Hok. split; [left; auto | auto].
  - destruct (buffer g) as [b|] eqn:Hb.
    + left. exists b, (Js.or_str (originalname g) fn). rewrite Hok.
      split; [right; exists g; auto | auto].
    + destruct (path g) as [p|] eqn:Hp.
      * destruct (Js.truthy_str p) eqn:Ht.
        -- destruct (readFileSync p) as [b|] eqn:Hr.
           ++ left. exists b, (Js.or_str (originalname g) fn). rewrite Hok.
              split; [| auto]. right. exists g. split; [reflexivity|].
              split; [reflexivity|]. right. split; [exact Hb|].
              exists p. auto.
           ++ right. split; [reflexivity|]. eexists. split; [reflexivity | eauto].
        -- right. split; [reflexivity|]. eexists. split; [reflexivity | eauto].
      * right. split; [reflexivity|]. eexists. split; [reflexivity | eauto].
Qed.

(** X8. Whatever goes wrong in [uploadImageToImageKit], an unusable file,
    an unreadable path or a failing [upload] call, the caller gets an error
    whose message starts with "Failed to upload image to ImageKit: "; and
    when it returns a result, that is the result of exactly one [upload]
    call made with the folder and the tags it was given. *)
Theorem upload_failure_is_wrapped (f : FileInput) (fn folder : string)
    (tags : list string) (st : State) :
  match fst (uploadImageToImageKit f fn folder tags st) with
  | Throw e =>
      exists m, message e = "Failed to upload image to ImageKit: " ++ m
  | Ret r =>
      exists b name,
        let params := mkUploadParams b name folder tags in
        upload params (world st)
          = (Ret r, world (snd (uploadImageToImageKit f fn folder tags st))) /\
        trace (snd (uploadImageToImageKit f fn folder tags st))
          = (trace st ++ [Upload params])%list
  end.
Proof.
  destruct (uploadImageToImageKit_call f fn folder tags st)
    as [(b & name & _ & Hsnd & Hfst) | (_ & m & Hfst & _)]; cbv zeta in *.
  - rewrite Hfst, Hsnd.
    destruct (upload (mkUploadParams b name folder tags) (world st)) as [[r|e] w] eqn:Hup;
      simpl.
    + exists b, name. rewrite Hup. auto.
    + eexists. reflexivity.
  - rewrite Hfst. eexists. reflexivity.
Qed.

(** X9. A file object without a buffer and without a usable path is
    refused before the host is contacted: the error is the wrapped
    "Invalid file format" message and the state is untouched. *)
Theorem unusable_file_is_refused (g : MulterFile) (fn folder : string)
    (tags : list string) (st : State) :
  buffer g = None ->
  Js.truthy (path g) = false ->
  uploadImageToImageKit (IsFile g) fn folder tags st
  = (Throw (mkError ("Failed to upload image to ImageKit: " ++
                     "Invalid file format. Expected buffer or multer file object.")),
     st).
Proof.
  intros Hb Hp. unfold uploadImageToImageKit, try_catch, bind at 1.
  rewrite Hb. destruct (path g) as [p|]; [| reflexivity].
  simpl in Hp. rewrite Hp. reflexivity.
Qed.

End UploadFacts.

Lemma unusable_file_is_refused_sample :
  buffer (mkMulterFile (Some "logo.png") None (Some "")) = None /\
  Js.truthy (path (mkMulterFile (Some "logo.png") None (Some ""))) = false /\
  @uploadImageToImageKit Sample.kit Sample.runtime
     (IsFile (mkMulterFile (Some "logo.png") None (Some "")))
     "app-logo.png" "/app-assets" ["logo"] (Sample.start Sample.stocked)
  = (Throw (mkError ("Failed to upload image to ImageKit: " ++
                     "Invalid file format. Expected buffer or multer file object.")),
     Sample.start Sample.stocked).
Proof.
  split; [reflexivity|]. split; [reflexivity|].
  apply (@unusable_file_is_refused Sample.kit Sample.runtime); reflexivity.
Defined.

(** ** The logo handlers together *)

Section LogoMore.
Context `{IK : ImageKit} `{RT : Runtime}.

Lemma performUpload_cases (req : LogoRequest) (st : State) :
  (negb (Js.present (file req)) && negb (Js.truthy (logoBase64 req)) = true /\
   performUpload req st = (Ret None, st)) \/
  (negb (Js.present (file req)) && negb (Js.truthy (logoBase64 req)) = false /\
   exists f,
     ((Js.truthy (logoBase64 req) = true /\
       f = IsBuffer (Buffer_from_base64
                       (stripDataUrlPrefix (Js.to_string (logoBase64 req))))) \/
      (Js.truthy (logoBase64 req) = false /\
       exists g, file req = Some g /\ f = IsFile g)) /\
     performUpload req st =
     (match fst (uploadImageToImageKit f (finalFileName req) "/app-assets"
                   ["logo"; "app-logo"; "footer-logo"] st) with
      | Ret r => Ret (Some r)
      | Throw e => Throw e
      end,
      snd (uploadImageToImageKit f (finalFileName req) "/app-assets"
             ["logo"; "app-logo"; "footer-logo"] st))).
Proof.
  assert (Hbind : forall f,
             (r <- uploadImageToImageKit f (finalFileName req) "/app-assets"
                     ["logo"; "app-logo"; "footer-logo"] ;; ret (Some r)) st
             = (match fst (uploadImageToImageKit f (finalFileName req) "/app-assets"
                             ["logo"; "app-logo"; "footer-logo"] st) with
                | Ret r => Ret (Some r)
                | Throw e => Throw e
                end,
                snd (uploadImageToImageKit f (finalFileName req) "/app-assets"
                       ["logo"; "app-logo"; "footer-logo"] st))).
  { intros f. unfold bind, ret.
    destruct (uploadImageToImageKit f _ _ _ st) as [[r|e] st1]; reflexivity. }
  unfold performUpload. destruct (Js.truthy (logoBase64 req)) eqn:Hb.
  - right. split; [apply andb_false_r|]. eexists. split; [left; eauto|].
    apply Hbind.
  - destruct (file req) as [g|] eqn:Hf.
    + right. split; [reflexivity|]. exists (IsFile g). split; [right; eauto|].
      apply Hbind.
    + left. split; reflexivity.
Qed.

(** [uploadLogo] in one equation. *)
Lemma uploadLogo_run (req : LogoRequest) (st : State) :
  uploadLogo req st =
  if negb (Js.present (file req)) && negb (Js.truthy (logoBase64 req))
  then (Ret BadRequest, st)
  else
    match performUpload req st with
    | (Throw e, st1) => (Ret (UploadFailed (message e)), st1)
    | (Ret None, st1) =>
        (Ret (UploadFailed "Cannot read properties of undefined (reading 'url')"),
         snd (deleteOldLogo st1))
    | (Ret (Some r), st1) =>
        let st2 := snd (deleteOldLogo st1) in
        (Ret (LogoUploaded r),
         mkState (world st2) (trace st2) (res_url r) (res_fileId r))
    end.
Proof.
  unfold uploadLogo, try_catch at 1.
  destruct (negb (Js.present (file req)) && negb (Js.truthy (logoBase64 req)));
    [reflexivity|].
  unfold try_catch, bind at 1.
  destruct (performUpload req st) as [[ores|e] st1]; [| reflexivity].
  unfold bind at 1.
  destruct (deleteOldLogo_run st1) as (st2 & evs & Hrun & _).
  rewrite Hrun. destruct ores as [r|]; reflexivity.
Qed.

(** X10. In a multipart upload (no base64 body) whose file carries a buffer
    and an original name, the name sent to the host is that original name:
    neither the [fileName] of the request nor the "app-logo" naming is
    used.  The folder is "/app-assets". *)
Theorem multipart_upload_keeps_original_name (req : LogoRequest)
    (g : MulterFile) (b : Buffer) (st : State) :
  Js.truthy (logoBase64 req) = false ->
  file req = Some g ->
  buffer g = Some b ->
  Js.truthy (originalname g) = true ->
  exists evs,
    trace (snd (uploadLogo req st)) =
    (trace st ++
     Upload (mkUploadParams b (Js.to_string (originalname g)) "/app-assets"
               ["logo"; "app-logo"; "footer-logo"]) :: evs)%list.
Proof.
  intros Hb Hf Hbuf Hname.
  assert (Hor : forall d, Js.or_str (originalname g) d = Js.to_string (originalname g)).
  { intros d. destruct (originalname g) as [n|]; [| discriminate].
    simpl in *. now rewrite Hname. }
  assert (Hup : uploadImageToImageKit (IsFile g) (finalFileName req) "/app-assets"
                  ["logo"; "app-logo"; "footer-logo"] st
                = (let params := mkUploadParams b (Js.to_string (originalname g))
                                   "/app-assets" ["logo"; "app-logo"; "footer-logo"] in
                   (match fst (upload params (world st)) with
                    | Ret r => Ret r
                    | Throw e => Throw (mkError ("Failed to upload image to ImageKit: "
                                                 ++ message e))
                    end,
                    with_world (snd (upload params (world st)))
                               (log (Upload params) st)))).
  { unfold uploadImageToImageKit, try_catch, bind, ret, call_upload.
    rewrite Hbuf, Hor. simpl.
    destruct (upload _ (world st)) as [[r|e] w]; reflexivity. }
  rewrite uploadLogo_run. rewrite Hf, Hb. simpl.
  unfold performUpload. rewrite Hb, Hf. unfold bind at 1. rewrite Hup. cbv zeta.
  destruct (fst (upload _ (world st))) as [r|e].
  - unfold ret. cbv zeta.
    destruct (deleteOldLogo_run
                (with_world
                   (snd (upload (mkUploadParams b (Js.to_string (originalname g))
                                   "/app-assets" ["logo"; "app-logo"; "footer-logo"])
                           (world st)))
                   (log (Upload (mkUploadParams b (Js.to_string (originalname g))
                                   "/app-assets" ["logo"; "app-logo"; "footer-logo"]))
                        st)))
      as (st2 & evs & Hrun & (Htrace & _ & _) & _).
    rewrite Hrun. simpl. exists evs. rewrite Htrace. simpl.
    now rewrite <- app_assoc.
  - exists []. reflexivity.
Qed.

(** X11. The answer 200 of [uploadLogo] and [getLogo] agree: after an
    upload answered with result [r], the variables hold the URL and the
    identifier of [r], and [getLogo] answers with both when the URL is a
    non-empty string; when [r] carries no URL, [getLogo] answers 404 right
    after the successful upload. *)
Theorem uploaded_logo_is_served (req : LogoRequest) (st st' : State)
    (r : UploadResult) :
  uploadLogo req st = (Ret (LogoUploaded r), st') ->
  currentLogoUrl st' = res_url r /\
  currentLogoFileId st' = res_fileId r /\
  getLogo st' =
  (Ret (if Js.truthy (res_url r)
        then CurrentLogo (res_url r) (res_fileId r)
        else NoLogo),
   st').
Proof.
  rewrite uploadLogo_run.
  destruct (negb (Js.present (file req)) && negb (Js.truthy (logoBase64 req)));
    [discriminate|].
  destruct (performUpload req st) as [[[r0|]|e] st1]; try discriminate.
  cbv zeta. intros H. injection H as -> <-. simpl.
  split; [reflexivity|]. split; [reflexivity|].
  unfold getLogo, try_catch, bind, get. simpl.
  destruct (Js.truthy (res_url r)); reflexivity.
Qed.

(** X12. After the tracked logo was deleted, [getLogo] answers 404 and a
    second [deleteLogo] answers 404 and does nothing. *)
Theorem deleted_logo_is_gone (st : State) :
  tracked st = true ->
  let st' := snd (deleteLogo st) in
  getLogo st' = (Ret NoLogo, st') /\
  deleteLogo st' = (Ret NothingToDelete, st').
Proof.
  intros Ht. cbv zeta. rewrite (deleteLogo_run st), Ht. cbv zeta. simpl.
  split; [reflexivity|]. now rewrite deleteLogo_run.
Qed.

(** X13. A 500 from [uploadLogo] leaves the tracked logo alone: the logo
    variables are unchanged, no delete was attempted and [deleteFile] was
    not called; the details start with the prefix of the upload error. *)
Theorem failed_upload_keeps_logo (req : LogoRequest) (st st' : State)
    (details : string) :
  uploadLogo req st = (Ret (UploadFailed details), st') ->
  currentLogoUrl st' = currentLogoUrl st /\
  currentLogoFileId st' = currentLogoFileId st /\
  (exists evs, trace st' = (trace st ++ evs)%list /\
               attempts evs = [] /\ deleteCalls evs = 0) /\
  exists m, details = "Failed to upload image to ImageKit: " ++ m.
Proof.
  rewrite uploadLogo_run.
  destruct (performUpload_cases req st) as [(Hinv & _) | (Hinv & f & _ & Hrun)];
    rewrite Hinv; [discriminate|].
  rewrite Hrun.
  destruct (uploadImageToImageKit_call f (finalFileName req) "/app-assets"
              ["logo"; "app-logo"; "footer-logo"] st)
    as [(b & name & _ & Hsnd & Hfst) | (Hsnd & m & Hfst & _)]; cbv zeta in *.
  - rewrite Hfst, Hsnd.
    destruct (fst (upload _ (world st))) as [r|e]; [discriminate|].
    intros H. injection H as <- <-. simpl.
    split; [reflexivity|]. split; [reflexivity|]. split; [| eauto].
    eexists. split; [reflexivity|]. split; reflexivity.
  - rewrite Hfst, Hsnd. intros H. injection H as <- <-. simpl.
    split; [reflexivity|]. split; [reflexivity|]. split; [| eauto].
    exists []. rewrite app_nil_r. repeat split; reflexivity.
Qed.

End LogoMore.

(** X14. The name [uploadLogo] settles on is never empty; it is the
    request's [fileName] whenever that is a non-empty string, and starts
    with "app-logo" otherwise. *)
Theorem finalFileName_cases `{RT : Runtime} (req : LogoRequest) :
  finalFileName req <> "" /\
  (forall n, fileName req = Some n -> n <> "" -> finalFileName req = n) /\
  (Js.truthy (fileName req) = false ->
   Js.startsWith (finalFileName req) "app-logo" = true).
Proof.
  unfold finalFileName.
  set (oname := match file req with Some f => originalname f | None => None end).
  split; [| split].
  - destruct (Js.truthy oname && negb (Js.truthy (fileName req)));
      [discriminate|].
    destruct (Js.truthy (logoBase64 req) && negb (Js.truthy (fileName req))).
    + destruct (dataUrlType _); discriminate.
    + destruct (fileName req) as [[|c n]|]; discriminate.
  - intros n Hn Hne. apply truthy_str_spec in Hne.
    rewrite Hn. simpl. rewrite Hne. simpl. rewrite !andb_false_r. reflexivity.
  - intros Hf. rewrite Hf. simpl. rewrite !andb_true_r.
    destruct (Js.truthy oname); [reflexivity|].
    destruct (Js.truthy (logoBase64 req)).
    + destruct (dataUrlType _); reflexivity.
    + destruct (fileName req) as [[|c n]|]; [reflexivity | discriminate | reflexivity].
Qed.

Lemma multipart_upload_keeps_original_name_sample :
  exists evs,
    trace (snd (@uploadLogo Sample.kit Sample.runtime Cases.multipart
                  (Sample.start Sample.stocked))) =
    ([] ++
     Upload (mkUploadParams "PNG-bytes" "logo-final.png" "/app-assets"
               ["logo"; "app-logo"; "footer-logo"]) :: evs)%list.
Proof.
  apply (@multipart_upload_keeps_original_name Sample.kit Sample.runtime
           Cases.multipart
           (mkMulterFile (Some "logo-final.png") (Some "PNG-bytes") None)
           "PNG-bytes" (Sample.start Sample.stocked));
    reflexivity.
Defined.

Lemma uploaded_logo_is_served_sample :
  exists r st',
    @uploadLogo Sample.kit Sample.runtime Sample.jsonUpload
       (Sample.start Sample.stocked) = (Ret (LogoUploaded r), st') /\
    @getLogo Sample.kit st'
    = (Ret (CurrentLogo
              (Some "https://ik.example.io/acct/app-assets/app-logo.png")
              (Some "id-app-logo.png")), st').
Proof.
  eexists _, _. split; [reflexivity|].
  exact (proj2 (proj2 (@uploaded_logo_is_served Sample.kit Sample.runtime
                         Sample.jsonUpload (Sample.start Sample.stocked)
                         _ _ eq_refl))).
Defined.

Lemma deleted_logo_is_gone_sample :
  @tracked Sample.kit (Sample.withLogo Sample.stubborn) = true /\
  @getLogo Sample.kit
     (snd (@deleteLogo Sample.kit Sample.runtime (Sample.withLogo Sample.stubborn)))
  = (Ret NoLogo,
     snd (@deleteLogo Sample.kit Sample.runtime (Sample.withLogo Sample.stubborn))) /\
  @deleteLogo Sample.kit Sample.runtime
     (snd (@deleteLogo Sample.kit Sample.runtime (Sample.withLogo Sample.stubborn)))
  = (Ret NothingToDelete,
     snd (@deleteLogo Sample.kit Sample.runtime (Sample.withLogo Sample.stubborn))).
Proof.
  split; [reflexivity|].
  exact (@deleted_logo_is_gone Sample.kit Sample.runtime
           (Sample.withLogo Sample.stubborn) eq_refl).
Defined.

Lemma failed_upload_keeps_logo_sample :
  exists details st',
    @uploadLogo Sample.kit Sample.runtime Sample.jsonUpload
       (Sample.withLogo Cases.offline) = (Ret (UploadFailed details), st') /\
    currentLogoUrl st'
      = Some "https://ik.example.io/acct/app-assets/app-logo.png" /\
    currentLogoFileId st' = Some "id-app-logo.png" /\
    (exists evs, trace st' = ([] ++ evs)%list /\
                 attempts evs = [] /\ deleteCalls evs = 0) /\
    exists m, details = "Failed to upload image to ImageKit: " ++ m.
Proof.
  eexists _, _. split; [reflexivity|].
  exact (@failed_upload_keeps_logo Sample.kit Sample.runtime Sample.jsonUpload
           (Sample.withLogo Cases.offline) _ _ eq_refl).
Defined.

(** ** Highlighted products *)

Lemma filter_keeps_all (A : Type) (f : A -> bool) (l : list A) :
  (List.length l =? List.length (filter f l))%nat = true <->
  forall x, In x l -> f x = true.
Proof.
  assert (Hle : forall l', List.length (filter f l') <= List.length l').
  { induction l' as [|y ys IH]; simpl; [lia|]. destruct (f y); simpl; lia. }
  induction l as [|x xs IH].
  - split; [intros _ ? [] | reflexivity].
  - cbn [filter]. destruct (f x) eqn:Hx; cbn [List.length]; rewrite Nat.eqb_eq.
    + split.
      * intros H y [<- | Hy]; [exact Hx|].
        apply IH; [| exact Hy]. apply Nat.eqb_eq. lia.
      * intros H. f_equal. apply Nat.eqb_eq, IH. intros y Hy. apply H. now right.
    + split.
      * intros H. pose proof (Hle xs). lia.
      * intros H. rewrite (H x (or_introl eq_refl)) in Hx. discriminate.
Qed.

Lemma filter_out_spec (t : string) (l : list string) :
  let remaining := filter (fun id => negb (String.eqb id t)) l in
  ~ In t remaining /\
  (forall id, id <> t -> (In id remaining <-> In id l)) /\
  ((List.length l =? List.length remaining)%nat = true <-> ~ In t l).
Proof.
  cbv zeta. split; [| split].
  - intros H. apply filter_In in H as [_ H]. now rewrite String.eqb_refl in H.
  - intros id Hne. rewrite filter_In. split; [tauto|].
    intros H. split; [exact H|]. apply negb_true_iff. now apply String.eqb_neq.
  - rewrite filter_keeps_all. split.
    + intros H Hin. specialize (H t Hin). now rewrite String.eqb_refl in H.
    + intros H x Hx. apply negb_true_iff, String.eqb_neq. congruence.
Qed.

Section HighlightedFacts.
Context `{MG : Mongo}.

(** [removeHighlightedProduct] in one equation, for a well-formed request
    whose seller has a document. *)
Lemma removeHighlightedProduct_run (sellerId oid : string)
    (pid : option string) (h : HighlightedDoc) (st : DbState) (db1 : Db) :
  blank pid = false ->
  ObjectId sellerId = Some oid ->
  findHighlighted oid (db st) = (Ret (Some h), db1) ->
  let t := trim (Js.to_string pid) in
  let remaining := filter (fun id => negb (String.eqb id t)) (productIds h) in
  removeHighlightedProduct sellerId pid st =
  if (List.length (productIds h) =? List.length remaining)%nat
  then (Ret (HlError 404 "Product ID not found in highlighted products"),
        mkDbState db1 (queries st ++ [FindHighlighted oid]))
  else
    (match fst (saveHighlighted (mkHighlighted (hl_seller h) remaining) db1) with
     | Ret _ =>
         Ret (HlOk (Some "Product removed from highlighted products")
                   (mkHighlighted (hl_seller h) remaining))
     | Throw e => Ret (HlError 500 (message e))
     end,
     mkDbState
       (snd (saveHighlighted (mkHighlighted (hl_seller h) remaining) db1))
       ((queries st ++ [FindHighlighted oid]) ++
        [SaveHighlighted (mkHighlighted (hl_seller h) remaining)])).
Proof.
  intros Hblank Hoid Hfind t remaining.
  unfold removeHighlightedProduct, ecatch. rewrite Hblank, Hoid.
  unfold ebind at 1, call_findHighlighted. rewrite Hfind. cbv zeta.
  fold t. fold remaining.
  destruct (List.length (productIds h) =? List.length remaining)%nat;
    [reflexivity|].
  unfold ebind, call_saveHighlighted, eret. simpl.
  destruct (saveHighlighted _ db1) as [[[]|e] db2]; reflexivity.
Qed.

(** X15. [removeHighlightedProduct], for a well-formed request whose
    seller has a document: the list it works out holds no occurrence of
    the trimmed id and exactly the other ids; it saves that list if and
    only if the id occurred in the stored list, answering 200 (or 500 when
    the save throws); when the id did not occur it answers 404 and saves
    nothing. *)
Theorem remove_saves_exactly_when_present (sellerId oid : string)
    (pid : option string) (h : HighlightedDoc) (st : DbState) (db1 : Db) :
  blank pid = false ->
  ObjectId sellerId = Some oid ->
  findHighlighted oid (db st) = (Ret (Some h), db1) ->
  let t := trim (Js.to_string pid) in
  let remaining := filter (fun id => negb (String.eqb id t)) (productIds h) in
  let h' := mkHighlighted (hl_seller h) remaining in
  let run := removeHighlightedProduct sellerId pid st in
  ~ In t remaining /\
  (forall id, id <> t -> (In id remaining <-> In id (productIds h))) /\
  (In t (productIds h) ->
   queries (snd run)
     = (queries st ++ [FindHighlighted oid; SaveHighlighted h'])%list /\
   fst run = match fst (saveHighlighted h' db1) with
             | Ret _ => Ret (HlOk (Some "Product removed from highlighted products") h')
             | Throw e => Ret (HlError 500 (message e))
             end) /\
  (~ In t (productIds h) ->
   run = (Ret (HlError 404 "Product ID not found in highlighted products"),
          mkDbState db1 (queries st ++ [FindHighlighted oid]))).
Proof.
  intros Hblank Hoid Hfind. cbv zeta.
  destruct (filter_out_spec (trim (Js.to_string pid)) (productIds h))
    as (Hgone & Hkept & Hcount).
  cbv zeta in Hgone, Hkept, Hcount.
  split; [exact Hgone|]. split; [exact Hkept|].
  set (t := trim (Js.to_string pid)) in *.
  set (remaining := filter (fun id => negb (String.eqb id t)) (productIds h)) in *.
  pose proof (removeHighlightedProduct_run sellerId oid pid h st db1
                Hblank Hoid Hfind) as Hrun.
  cbv zeta in Hrun. fold t in Hrun. fold remaining in Hrun.
  rewrite Hrun. split.
  - intros Hin.
    assert (Hc : (List.length (productIds h) =? List.length remaining)%nat = false).
    { apply not_true_iff_false. intros Hc. apply Hcount in Hc. auto. }
    rewrite Hc. simpl. rewrite <- app_assoc. auto.
  - intros Hnot. apply Hcount in Hnot. rewrite Hnot. reflexivity.
Qed.

(** X16. [addHighlightedProduct] always answers, and whatever it saves is
    the stored list with the trimmed id appended, for an id that was not in
    the stored list (or the list of that id alone when the seller had no
    document); it saves only after the lookup of an active product with
    that id for this very seller returned one.  So a stored list without
    duplicates stays without duplicates. *)
Theorem add_saves_only_new_ids_of_own_products (sellerId : string)
    (pid : option string) (st : DbState) :
  let t := trim (Js.to_string pid) in
  exists resp st' evs,
    addHighlightedProduct sellerId pid st = (Ret resp, st') /\
    queries st' = (queries st ++ evs)%list /\
    forall doc, In (SaveHighlighted doc) evs ->
      exists oid p db1 before,
        blank pid = false /\ ObjectId sellerId = Some oid /\
        findProduct t (Some oid) (db st) = (Ret (Some p), db1) /\
        productIds doc = (before ++ [t])%list /\ ~ In t before /\
        (NoDup before -> NoDup (productIds doc)) /\
        ((fst (findHighlighted oid db1) = Ret None /\ before = []) \/
         (exists h, fst (findHighlighted oid db1) = Ret (Some h) /\
                    before = productIds h /\ hl_seller doc = hl_seller h)).
Proof.
  cbv zeta.
  assert (Hnodup : forall (before : list string) (t : string),
             ~ In t before -> NoDup before -> NoDup (before ++ [t])%list).
  { intros before t Hnot Hnd. apply NoDup_app; [exact Hnd | repeat constructor; auto |].
    intros x Hx [<- | []]. auto. }
  unfold addHighlightedProduct, ecatch.
  destruct (blank pid) eqn:Hblank.
  { exists (HlError 400 "Product ID is required"), st, [].
    simpl. rewrite app_nil_r. repeat split. intros ? []. }
  destruct (ObjectId sellerId) as [oid|] eqn:Hoid.
  2:{ exists (HlError 400 "Invalid seller ID format"), st, [].
      simpl. rewrite app_nil_r. repeat split. intros ? []. }
  unfold ebind at 1, call_findProduct.
  destruct (findProduct _ (Some oid) (db st)) as [[[p|]|e] db1] eqn:Hprod; simpl.
  - (* the seller owns an active product with this id *)
    unfold ebind at 1, call_findHighlighted. simpl.
    destruct (findHighlighted oid db1) as [[[h|]|e] db2] eqn:Hfind; simpl.
    + destruct (existsb _ (productIds h)) eqn:Hex.
      * eexists _, _, _. split; [reflexivity|]. simpl.
        split; [rewrite <- app_assoc; reflexivity|].
        intros doc [Hd | [Hd | []]]; discriminate.
      * assert (Hnot : ~ In (trim (Js.to_string pid)) (productIds h)).
        { intros Hin. apply not_true_iff_false in Hex. apply Hex.
          apply existsb_exists. eexists. split; [exact Hin | apply String.eqb_refl]. }
        unfold ebind, call_saveHighlighted, call_findHighlighted, eret, ethrow. simpl.
        destruct (saveHighlighted _ db2) as [[[]|e] db3]; simpl.
        -- destruct (findHighlighted oid db3) as [[[u|]|e] db4]; simpl;
             (eexists _, _, _; split; [reflexivity|];
              split; [rewrite <- !app_assoc; reflexivity|];
              intros doc Hin; simpl in Hin;
              destruct Hin as [Hd | [Hd | [Hd | [Hd | []]]]]; try discriminate;
              injection Hd as <-;
              exists oid, p, db1, (productIds h); rewrite Hfind; simpl;
              repeat split; auto; right; eauto).
        -- eexists _, _, _. split; [reflexivity|].
           split; [rewrite <- !app_assoc; reflexivity|].
           intros doc Hin; simpl in Hin.
           destruct Hin as [Hd | [Hd | [Hd | []]]]; try discriminate.
           injection Hd as <-.
           exists oid, p, db1, (productIds h). rewrite Hfind. simpl.
           repeat split; auto. right. eauto.
    + unfold ebind, call_saveHighlighted, call_findHighlighted, eret, ethrow. simpl.
      destruct (saveHighlighted _ db2) as [[[]|e] db3]; simpl.
      * destruct (findHighlighted oid db3) as [[[u|]|e] db4]; simpl;
          (eexists _, _, _; split; [reflexivity|];
           split; [rewrite <- !app_assoc; reflexivity|];
           intros doc Hin; simpl in Hin;
           destruct Hin as [Hd | [Hd | [Hd | [Hd | []]]]]; try discriminate;
           injection Hd as <-;
           exists oid, p, db1, []; rewrite Hfind; simpl;
           repeat split; auto; repeat constructor; auto).
      * eexists _, _, _. split; [reflexivity|].
        split; [rewrite <- !app_assoc; reflexivity|].
        intros doc Hin; simpl in Hin.
        destruct Hin as [Hd | [Hd | [Hd | []]]]; try discriminate.
        injection Hd as <-.
        exists oid, p, db1, []. rewrite Hfind. simpl.
        repeat split; auto. repeat constructor; auto.
    + eexists _, _, _. split; [reflexivity|].
      split; [rewrite <- !app_assoc; reflexivity|].
      intros doc [Hd | [Hd | []]]; discriminate.
  - (* no such product for this seller *)
    unfold ebind, call_findProduct, eret. simpl.
    destruct (findProduct _ None db1) as [[[q|]|e] db2]; simpl;
      (eexists _, _, _; split; [reflexivity|];
       split; [rewrite <- !app_assoc; reflexivity|];
       intros doc [Hd | [Hd | []]]; discriminate).
  - eexists _, _, _. split; [reflexivity|]. split; [reflexivity|].
    intros doc [Hd | []]; discriminate.
Qed.

(** X17. Removing undoes adding: when the seller's document is the one
    [addHighlightedProduct] saves for a stored list [ids] that did not
    hold the id, [removeHighlightedProduct] with the same id saves [ids]
    again. *)
Theorem remove_undoes_add (sellerId oid : string) (pid : option string)
    (seller : string) (ids : list string) (st : DbState) (db1 : Db) :
  blank pid = false ->
  ObjectId sellerId = Some oid ->
  let t := trim (Js.to_string pid) in
  ~ In t ids ->
  findHighlighted oid (db st)
    = (Ret (Some (mkHighlighted seller (ids ++ [t]))), db1) ->
  queries (snd (removeHighlightedProduct sellerId pid st))
    = (queries st ++
       [FindHighlighted oid; SaveHighlighted (mkHighlighted seller ids)])%list.
Proof.
  intros Hblank Hoid t Hnot Hfind.
  pose proof (removeHighlightedProduct_run sellerId oid pid _ st db1
                Hblank Hoid Hfind) as Hrun.
  cbv zeta in Hrun. simpl in Hrun. fold t in Hrun.
  assert (Hfilter : filter (fun id => negb (String.eqb id t)) (ids ++ [t]) = ids).
  { rewrite filter_app. simpl. rewrite String.eqb_refl. simpl. rewrite app_nil_r.
    apply forallb_filter_id. apply forallb_forall. intros x Hx.
    apply negb_true_iff, String.eqb_neq. congruence. }
  rewrite Hfilter in Hrun.
  assert (Hc : (List.length (ids ++ [t]) =? List.length ids)%nat = false).
  { apply Nat.eqb_neq. rewrite length_app. simpl. lia. }
  rewrite Hc in Hrun. rewrite Hrun. simpl. now rewrite <- app_assoc.
Qed.

(** X18. [getHighlightedProducts] writes only to create what is missing:
    it saves a document only when the seller has none, and then one with
    an empty list; an existing document is returned as it is. *)
Theorem get_creates_only_when_missing (sellerId : string) (st : DbState) :
  exists resp st' evs,
    getHighlightedProducts sellerId st = (Ret resp, st') /\
    queries st' = (queries st ++ evs)%list /\
    (forall doc, In (SaveHighlighted doc) evs ->
       productIds doc = [] /\
       exists oid, ObjectId sellerId = Some oid /\ hl_seller doc = oid /\
                   fst (findHighlighted oid (db st)) = Ret None) /\
    (forall oid h, ObjectId sellerId = Some oid ->
                   fst (findHighlighted oid (db st)) = Ret (Some h) ->
                   resp = HlOk None h /\ evs = [FindHighlighted oid]).
Proof.
  unfold getHighlightedProducts, ecatch.
  destruct (ObjectId sellerId) as [oid|] eqn:Hoid.
  2:{ exists (HlError 400 "Invalid seller ID format"), st, [].
      rewrite app_nil_r. split; [reflexivity|]. split; [reflexivity|].
      split; [intros ? [] | intros ? ? H; discriminate]. }
  unfold ebind at 1, call_findHighlighted.
  destruct (findHighlighted oid (db st)) as [[[h|]|e] db1] eqn:Hfind; simpl.
  - eexists _, _, _. split; [reflexivity|]. split; [reflexivity|]. split.
    + intros doc [Hd | []]. discriminate.
    + intros oid' h' Ho Hh. injection Ho as <-. rewrite Hfind in Hh.
      injection Hh as <-. auto.
  - unfold ebind, call_saveHighlighted, eret. simpl.
    destruct (saveHighlighted _ db1) as [[[]|e] db2]; simpl;
      (eexists _, _, _; split; [reflexivity|];
       split; [rewrite <- app_assoc; reflexivity|]; split;
       [intros doc Hin; simpl in Hin; destruct Hin as [Hd | [Hd | []]];
        [discriminate|]; injection Hd as <-; simpl; split; [reflexivity|];
        exists oid; rewrite Hfind; auto
       | intros oid' h' Ho Hh; injection Ho as <-; rewrite Hfind in Hh;
         discriminate]).
  - eexists _, _, _. split; [reflexivity|]. split; [reflexivity|]. split.
    + intros doc [Hd | []]. discriminate.
    + intros oid' h' Ho Hh. injection Ho as <-. rewrite Hfind in Hh.
      discriminate.
Qed.

End HighlightedFacts.

(** ** The maintenance scripts *)

Section ScriptFacts.
Context `{MO : Mongoose}.

(** A plan runs until its first failing operation; it never exits. *)
Lemma runCalls_log (ops : list DbOp) (st : ScriptState) :
  (fst (runCalls ops st) = Done tt /\
   performed (snd (runCalls ops st))
     = (performed st ++ map (fun op => (op, true)) ops)%list) \/
  (exists e front op back,
      ops = (front ++ op :: back)%list /\
      fst (runCalls ops st) = Failed e /\
      performed (snd (runCalls ops st))
        = (performed st ++ map (fun op => (op, true)) front ++ [(op, false)])%list).
Proof.
  revert st. induction ops as [|op rest IH]; intros st.
  - left. simpl. rewrite app_nil_r. auto.
  - simpl. unfold sbind, perform.
    destruct (exec op (cluster st)) as [[n|e] c] eqn:Hop; simpl.
    + destruct (IH (mkScriptState c (performed st ++ [(op, true)])))
        as [(Hd & Hp) | (e & front & op' & back & Hops & Hf & Hp)].
      * left. rewrite Hd, Hp. simpl. rewrite <- app_assoc. auto.
      * right. exists e, (op :: front), op', back.
        rewrite Hf, Hp, Hops. simpl. rewrite <- app_assoc. auto.
    + right. exists e, [], op, rest. auto.
Qed.

(** The [try] block of [cleanupData] is its connection followed by its
    plan. *)
Lemma cleanupSteps_plan :
  cleanupSteps = sbind connectDB (fun _ => runCalls cleanupPlan).
Proof. reflexivity. Qed.

(** Around a body that completes (normally or by a throw) the script
    closes the connection and exits, with 0 when closing returned and with
    1 when it threw; a body that exits is the end of the process. *)
Lemma cleanup_wrapper (body : Script unit) (st s : ScriptState) (r : Run unit) :
  body st = (r, s) ->
  scatch
    (sfinally (scatch body (fun error => sfail error))
              (closed <~ perform CloseConnection ;; exit (A := unit) 0))
    (fun error => exit 1) st
  = match r with
    | Exited code => (Exited code, s)
    | _ =>
        let o := exec CloseConnection (cluster s) in
        (Exited (if returned (fst o) then 0 else 1),
         mkScriptState (snd o)
           (performed s ++ [(CloseConnection, returned (fst o))]))
    end.
Proof.
  intros Hbody. unfold scatch, sfinally. rewrite Hbody.
  destruct r as [[]|e|code]; [| | reflexivity];
    unfold sfail, sbind, perform, exit;
    destruct (exec CloseConnection (cluster s)) as [[n|e'] c]; reflexivity.
Qed.

(** What the cleanup script does, in full: either the connection fails and
    the process exits with 1 at once, or the plan runs until its first
    failing operation, the connection is closed, and the exit code says
    only whether closing returned. *)
Lemma runCleanup_shape (st : ScriptState) :
  exists code st' log,
    runCleanup st = (Exited code, st') /\
    performed st' = (performed st ++ log)%list /\
    ((log = [(Connect, false)] /\ code = 1) \/
     (exists steps closed,
         log = ((Connect, true) :: steps ++ [(CloseConnection, closed)])%list /\
         code = (if closed then 0 else 1) /\
         (steps = map (fun op => (op, true)) cleanupPlan \/
          exists front op back,
            cleanupPlan = (front ++ op :: back)%list /\
            steps = (map (fun op => (op, true)) front ++ [(op, false)])%list))).
Proof.
  unfold runCleanup, cleanupData.
  destruct (cleanupSteps st) as [r s] eqn:Hbody.
  rewrite (cleanup_wrapper cleanupSteps st s r Hbody).
  rewrite cleanupSteps_plan in Hbody.
  remember cleanupPlan as plan eqn:Hplan_def.
  unfold sbind at 1, connectDB, scatch, sbind at 1, perform in Hbody.
  destruct (exec Connect (cluster st)) as [[n|e] c]; simpl in Hbody.
  2:{ injection Hbody as <- <-. eexists _, _, _. split; [reflexivity|].
      split; [reflexivity|]. left. auto. }
  set (st1 := mkScriptState c (performed st ++ [(Connect, true)])) in *.
  destruct (runCalls_log plan st1)
    as [(Hd & Hp) | (e & front & op & back & Hplan & Hf & Hp)];
    rewrite Hbody in *; simpl in *.
  - subst r. eexists _, _, _. split; [reflexivity|]. simpl.
    split; [rewrite Hp, <- !app_assoc; reflexivity|].
    right. eexists _, _. split; [reflexivity|]. split; [reflexivity|].
    left. now subst plan.
  - subst r. eexists _, _, _. split; [reflexivity|]. simpl.
    split; [rewrite Hp, <- !app_assoc; reflexivity|].
    right.
    exists (map (fun op => (op, true)) front ++ [(op, false)])%list,
           (returned (fst (exec CloseConnection (cluster s)))).
    split; [rewrite <- app_assoc; reflexivity|].
    split; [reflexivity|]. right. subst plan. eauto.
Qed.

Lemma deletedCollections_app (a b : list (DbOp * bool)) :
  deletedCollections (a ++ b) = (deletedCollections a ++ deletedCollections b)%list.
Proof. unfold deletedCollections. apply flat_map_app. Qed.

(** The deletions of a run of the plan cut at any point are the first so
    many of the five collections, in the order of the plan. *)
Lemma plan_prefix_deletions (front : list DbOp) (op : DbOp) (back : list DbOp) :
  cleanupPlan = (front ++ op :: back)%list ->
  exists k,
    deletedCollections (map (fun o => (o, true)) front ++ [(op, false)])
    = firstn k [Order; Product; Cart; Category; HighlightedProduct].
Proof.
  intros Hplan.
  assert (Hfront : front = firstn (List.length front) cleanupPlan).
  { rewrite Hplan, firstn_app, Nat.sub_diag, firstn_all. simpl.
    now rewrite app_nil_r. }
  assert (Hop : op = nth (List.length front) cleanupPlan Connect).
  { rewrite Hplan. now rewrite nth_middle. }
  assert (Hlen : List.length front < List.length cleanupPlan).
  { rewrite Hplan, length_app. simpl. lia. }
  exists (List.length
            (deletedCollections (map (fun o => (o, true)) front ++ [(op, false)]))).
  rewrite Hop, Hfront. clear Hplan Hop Hfront.
  generalize dependent (List.length front). intros n Hlen.
  change (List.length cleanupPlan) with 21 in Hlen.
  do 21 (destruct n as [|n]; [reflexivity|]). lia.
Qed.

(** X19. The cleanup script always ends by [process.exit].  The exit code
    is 0 exactly when the last thing it did was closing the connection and
    that returned, whether or not a count or a deletion before it threw;
    it is 1 otherwise, that is when connecting failed (nothing else is
    done then) or when closing threw. *)
Theorem cleanup_exit_code (st : ScriptState) :
  exists code st' log,
    runCleanup st = (Exited code, st') /\
    performed st' = (performed st ++ log)%list /\
    (code = 0 \/ code = 1) /\
    (code = 0 <-> exists front, log = (front ++ [(CloseConnection, true)])%list) /\
    (log = [(Connect, false)] \/
     exists steps closed,
       log = ((Connect, true) :: steps ++ [(CloseConnection, closed)])%list).
Proof.
  destruct (runCleanup_shape st)
    as (code & st' & log & Hrun & Hp &
        [(Hlog & Hcode) | (steps & closed & Hlog & Hcode & _)]).
  - exists code, st', log. split; [exact Hrun|]. split; [exact Hp|].
    split; [auto|]. split; [| now left]. subst. split; [discriminate|].
    intros (front & Hf).
    change [(Connect, false)] with ([] ++ [(Connect, false)])%list in Hf.
    apply app_inj_tail in Hf as [_ Hf]. discriminate.
  - exists code, st', log. split; [exact Hrun|]. split; [exact Hp|].
    split; [destruct closed; auto|]. split; [| right; eauto]. subst. split.
    + destruct closed; [| discriminate]. intros _.
      exists ((Connect, true) :: steps). reflexivity.
    + intros (front & Hf).
      change ((Connect, true) :: steps ++ [(CloseConnection, closed)])%list
        with (((Connect, true) :: steps) ++ [(CloseConnection, closed)])%list in Hf.
      apply app_inj_tail in Hf as [_ Hf]. injection Hf as ->. reflexivity.
Qed.

(** X20. Whatever the database does, the collections the cleanup script
    deletes from are the first so many of Orders, Products, Carts,
    Categories, Highlighted products, in this order, each at most once: a
    deletion that throws stops the later ones, and users and customers are
    never deleted. *)
Theorem cleanup_never_deletes_users (st : ScriptState) :
  exists log k,
    performed (snd (runCleanup st)) = (performed st ++ log)%list /\
    deletedCollections log
      = firstn k [Order; Product; Cart; Category; HighlightedProduct] /\
    ~ In User (deletedCollections log) /\
    ~ In Customer (deletedCollections log).
Proof.
  assert (Hnot : forall k,
             ~ In User (firstn k [Order; Product; Cart; Category; HighlightedProduct]) /\
             ~ In Customer (firstn k [Order; Product; Cart; Category; HighlightedProduct])).
  { intros k. do 6 (destruct k as [|k]; [simpl; intuition discriminate|]).
    simpl. intuition discriminate. }
  destruct (runCleanup_shape st)
    as (code & st' & log & Hrun & Hp &
        [(Hlog & _) | (steps & closed & Hlog & _ & Hsteps)]);
    rewrite Hrun; simpl.
  - exists log, 0. subst log. split; [exact Hp|]. split; [reflexivity|]. apply (Hnot 0).
  - assert (Hdel : deletedCollections log = deletedCollections steps).
    { subst log.
      change ((Connect, true) :: steps ++ [(CloseConnection, closed)])%list
        with ([(Connect, true)] ++ steps ++ [(CloseConnection, closed)])%list.
      rewrite !deletedCollections_app. simpl. now rewrite app_nil_r. }
    destruct Hsteps as [-> | (front & op & back & Hplan & ->)].
    + exists log, 5. rewrite Hdel. split; [exact Hp|]. split; [reflexivity|].
      apply (Hnot 5).
    + destruct (plan_prefix_deletions front op back Hplan) as (k & Hk).
      exists log, k. rewrite Hdel, Hk. split; [exact Hp|]. split; [reflexivity|].
      apply Hnot.
Qed.

(** The body of the tax script is its plan. *)
Lemma taxScript_plan (st : ScriptState) :
  updateProductsWithTaxPercentage st =
  sfinally (scatch (runCalls taxPlan) (fun error => sret tt))
           (disconnected <~ perform Disconnect ;; sret tt) st.
Proof. reflexivity. Qed.

(** X21. The tax script always disconnects, last, also when connecting
    itself failed, and swallows every other failure: it ends normally
    exactly when disconnecting returned and throws the disconnect error
    otherwise.  Before disconnecting it performs its plan up to the first
    operation that throws; the only writes are the two updates of
    products. *)
Theorem tax_script_always_disconnects (st : ScriptState) :
  exists steps closed,
    performed (snd (updateProductsWithTaxPercentage st))
      = (performed st ++ steps ++ [(Disconnect, closed)])%list /\
    (closed = true -> fst (updateProductsWithTaxPercentage st) = Done tt) /\
    (closed = false ->
     exists e, fst (updateProductsWithTaxPercentage st) = Failed e) /\
    (steps = map (fun op => (op, true)) taxPlan \/
     exists front op back,
       taxPlan = (front ++ op :: back)%list /\
       steps = (map (fun op => (op, true)) front ++ [(op, false)])%list) /\
    (forall op ok, In (op, ok) steps -> isWrite op = true ->
                   exists f, op = UpdateManyTaxZero Product f).
Proof.
  rewrite taxScript_plan. remember taxPlan as plan eqn:Hplan_def.
  assert (Hwrites : forall op, In op plan -> isWrite op = true ->
                               exists f, op = UpdateManyTaxZero Product f).
  { subst plan. intros op Hin Hw. simpl in Hin.
    destruct Hin as [<- | [<- | [<- | [<- | [<- | []]]]]];
      try discriminate; eauto. }
  unfold sfinally, scatch.
  destruct (runCalls_log plan st)
    as [(Hd & Hp) | (e & front & op & back & Hplan & Hf & Hp)];
    destruct (runCalls plan st) as [r s]; simpl in *; subst r;
    unfold sret, sbind, perform;
    destruct (exec Disconnect (cluster s)) as [[n|e'] c]; simpl.
  - exists (map (fun op => (op, true)) plan), true.
    rewrite Hp, <- app_assoc. split; [reflexivity|]. split; [reflexivity|].
    split; [discriminate|]. split; [now left|].
    intros op ok Hin Hw. apply in_map_iff in Hin as (o & Ho & Hin).
    injection Ho as -> _. auto.
  - exists (map (fun op => (op, true)) plan), false.
    rewrite Hp, <- app_assoc. split; [reflexivity|]. split; [discriminate|].
    split; [eauto|]. split; [now left|].
    intros op ok Hin Hw. apply in_map_iff in Hin as (o & Ho & Hin).
    injection Ho as -> _. auto.
  - exists (map (fun op => (op, true)) front ++ [(op, false)])%list, true.
    rewrite Hp, <- app_assoc. split; [reflexivity|]. split; [reflexivity|].
    split; [discriminate|]. split; [right; eauto|].
    intros op0 ok Hin Hw. apply Hwrites; [| exact Hw]. rewrite Hplan.
    apply in_app_or in Hin as [Hin | [Hin | []]].
    + apply in_map_iff in Hin as (o & Ho & Hin). injection Ho as -> _.
      apply in_or_app. now left.
    + injection Hin as -> _. apply in_or_app. right. now left.
  - exists (map (fun op => (op, true)) front ++ [(op, false)])%list, false.
    rewrite Hp, <- app_assoc. split; [reflexivity|]. split; [discriminate|].
    split; [eauto|]. split; [right; eauto|].
    intros op0 ok Hin Hw. apply Hwrites; [| exact Hw]. rewrite Hplan.
    apply in_app_or in Hin as [Hin | [Hin | []]].
    + apply in_map_iff in Hin as (o & Ho & Hin). injection Ho as -> _.
      apply in_or_app. now left.
    + injection Hin as -> _. apply in_or_app. right. now left.
Qed.

End ScriptFacts.

Lemma remove_saves_exactly_when_present_sample :
  @blank Shop.mongo (Some "P-1") = false /\
  @ObjectId Shop.mongo Shop.seller = Some Shop.seller /\
  @findHighlighted Shop.mongo Shop.seller Shop.open
    = (Ret (Some (mkHighlighted Shop.seller ["P-1"])), Shop.open) /\
  queries (snd (@removeHighlightedProduct Shop.mongo Shop.seller (Some "P-1")
                  (Shop.at_ Shop.open)))
    = [FindHighlighted Shop.seller;
       SaveHighlighted (mkHighlighted Shop.seller [])].
Proof.
  split; [reflexivity|]. split; [reflexivity|]. split; [reflexivity|].
  destruct (@remove_saves_exactly_when_present Shop.mongo Shop.seller Shop.seller
              (Some "P-1") (mkHighlighted Shop.seller ["P-1"])
              (Shop.at_ Shop.open) Shop.open eq_refl eq_refl eq_refl)
    as (_ & _ & Hyes & _).
  apply Hyes. now left.
Defined.

Lemma remove_undoes_add_sample :
  let grown := Shop.mkStore [mkHighlighted Shop.seller ["P-1"; "P-2"]] [] false in
  @blank Shop.mongo (Some " P-2 ") = false /\
  ~ In "P-2" ["P-1"] /\
  queries (snd (@removeHighlightedProduct Shop.mongo Shop.seller (Some " P-2 ")
                  (Shop.at_ grown)))
    = [FindHighlighted Shop.seller;
       SaveHighlighted (mkHighlighted Shop.seller ["P-1"])].
Proof.
  cbv zeta. split; [reflexivity|].
  assert (Hnot : ~ In "P-2" ["P-1"]) by (intros [H | []]; discriminate).
  split; [exact Hnot|].
  apply (@remove_undoes_add Shop.mongo Shop.seller Shop.seller (Some " P-2 ")
           Shop.seller ["P-1"]
           (Shop.at_ (Shop.mkStore [mkHighlighted Shop.seller ["P-1"; "P-2"]] [] false))
           (Shop.mkStore [mkHighlighted Shop.seller ["P-1"; "P-2"]] [] false)
           eq_refl eq_refl Hnot eq_refl).
Defined.

(** The cleanup script on a database that refuses to delete products:
    orders are deleted, nothing after the failed deletion, and the exit
    code is 0. *)
Example cleanup_reports_success_after_failure :
  let run := @runCleanup (Ops.scripted Ops.productsLocked)
               (Ops.fresh Ops.productsLocked) in
  fst run = Exited 0 /\
  deletedCollections (performed (snd run)) = [Order; Product] /\
  In (DeleteMany Product Everything, false) (performed (snd run)).
Proof. vm_compute. repeat split. do 9 right. now left. Qed.

(** ** Reconciliation and the kept photo *)

(** C1 at its failing input.  The product has two hosted photos; the
    seller keeps the first and removes the second, whose file name ends
    with the file name of the first.  The host lists the records of both,
    the kept one first.  Only the removed URL is handed to
    [deleteImageFromImageKit], but its URL test accepts the kept record
    (the removed URL contains "photo.jpg", the last segment of the kept
    record's URL) before it reaches the record whose URL equals the removed
    one: the identifier handed to [deleteFile] is the kept photo's, and the
    call returns.  The same happens when only the global listing holds the
    records. *)
Lemma reconcile_deletes_kept_asset :
  let current := [Album.kept; Album.removed] in
  let desired := [Album.kept] in
  let run := @reconcile Sample.kit Sample.runtime current desired in
  In Album.kept desired /\
  rec_url Album.keptRecord = Some Album.kept /\
  rec_fileId Album.keptRecord = Some "id-kept" /\
  rec_url Album.removedRecord = Some Album.removed /\
  rec_fileId Album.removedRecord = Some "id-removed" /\
  fst (run (Sample.start Album.inFolder)) = Ret [(Album.removed, true)] /\
  trace (snd (run (Sample.start Album.inFolder)))
    = [Attempt Album.removed; ListFiles (Some "/acct/products");
       DeleteFile "id-kept" Album.removed true] /\
  fst (run (Sample.start Album.onlyGlobal)) = Ret [(Album.removed, true)] /\
  trace (snd (run (Sample.start Album.onlyGlobal)))
    = [Attempt Album.removed; ListFiles (Some "/acct/products"); ListFiles None;
       DeleteFile "id-kept" Album.removed true].
Proof.
  cbv zeta. split; [now left|]. repeat split; vm_compute; reflexivity.
Qed.
